(** * CSVWriter.h: the indexed field-name builder and the CSV row writer

    A shallow embedding of [DRAMSim::indexStr] (three overloads) and of
    [class DRAMSim::CSVWriter], followed by the properties of the header /
    row protocol.

    Conventions
    - text ([const char *], [std::string]) is a [string]; a C string holds
      no NUL character, so [strlen] is [String.length];
    - [unsigned] is a 32-bit integer, kept as a [Z] in [0, 2^32) with the
      wrap-around of [idx++] written out ([wrap]);
    - a vector's size is a 64-bit [size_t]; the header loop of [finalize]
      counts the field names with an [unsigned] and does not end when
      there are [2^32] of them or more.  [header_loop] is that loop with
      its counter, and [finalize_within] the call that may not return;
      [finalize] is the state the call leaves when it returns;
    - the [ostream] the writer is bound to is a buffered character sink:
      characters are inserted into [pending] and moved to [device] by a
      flush;
    - [printf] appends to the process's standard output, kept next to the
      writer's members as [stdout];
    - how the sink prints a number ([ostream::operator<<] for [int],
      [double], ...) belongs to the C++ library and to the formatting
      state the caller left in the sink; it is a parameter ([render]) of
      the writer. *)

From Stdlib Require Import ZArith List String Ascii Bool Lia.
From Stdlib Require Import DecimalString.
From Stdlib Require Import Floats.SpecFloat.
Import ListNotations.

Local Open Scope string_scope.
Local Open Scope Z_scope.

(* ================================================================== *)
(** ** Text *)

Definition newline : string := String (ascii_of_nat 10) "".

(** ["%u"]: an unsigned integer in decimal. *)
Definition utoa (n : Z) : string :=
  NilEmpty.string_of_uint (N.to_uint (Z.to_N n)).

(** ["%d"] and the like: a signed integer in decimal. *)
Definition itoa (n : Z) : string :=
  if n <? 0 then "-" ++ utoa (- n) else utoa n.

(* ================================================================== *)
(** ** Machine integers *)

(** Conversion to [unsigned] (32 bits), and the result of arithmetic on it. *)
Definition wrap (z : Z) : Z := z mod 2 ^ 32.

(* ================================================================== *)
(** ** The indexed-name builder *)

Definition MAX_TMP_STR : nat := 64.
(** length of a two digit subscript: [[xx]] *)
Definition SINGLE_INDEX_LEN : nat := 4.

(** How a call ends: it returns a value, or the process is terminated
    after a report on the diagnostic channel. *)
Inductive termination : Type :=
| Abort                (* abort() *)
| Exit (status : Z).   (* exit(status) *)

Inductive outcome (A : Type) : Type :=
| Returned (a : A)
| Terminated (diagnostic : list string) (how : termination).

Arguments Returned {A} a.
Arguments Terminated {A} diagnostic how.

(** Modelled from the spec: the [ERROR] macro is used by this header but
    defined elsewhere in the repository.  The spec says the oversized-name
    case is "reported via the diagnostic channel"; the report is kept as
    the message the macro is given. *)
Definition ERROR (str : string) : list string := [str].

Definition too_long : string :=
  "Your string is too long for the stats, increase MAX_TMP_STR".

(** [snprintf(buf, size, ...)] keeps the first [size - 1] characters of the
    formatted text (the last byte of the buffer is the terminating NUL). *)
Definition snprintf (size : nat) (formatted : string) : string :=
  substring 0 (size - 1) formatted.

(** [strndup(s, n)]: a fresh copy of at most [n] characters of [s]. *)
Definition strndup (s : string) (n : nat) : string := substring 0 n s.

(** The texts the three format strings ["%s[%u]"], ["%s[%u][%u]"] and
    ["%s[%u][%u][%u]"] stand for. *)
Definition subscript (i : Z) : string := "[" ++ utoa (wrap i) ++ "]".

Definition format1 (baseName : string) (channel : Z) : string :=
  baseName ++ subscript channel.
Definition format2 (baseName : string) (channel rank : Z) : string :=
  baseName ++ subscript channel ++ subscript rank.
Definition format3 (baseName : string) (channel rank bank : Z) : string :=
  baseName ++ subscript channel ++ subscript rank ++ subscript bank.

(** Single index *)
Definition indexStr1 (baseName : string) (channel : Z) : outcome string :=
  if (MAX_TMP_STR <? String.length baseName + SINGLE_INDEX_LEN)%nat
  then Terminated (ERROR too_long) Abort
  else
    let tmp_str := snprintf MAX_TMP_STR (format1 baseName channel) in
    Returned (strndup tmp_str MAX_TMP_STR).

(** two indices *)
Definition indexStr2 (baseName : string) (channel rank : Z) : outcome string :=
  if (MAX_TMP_STR <? String.length baseName + 2 * SINGLE_INDEX_LEN)%nat
  then Terminated (ERROR too_long) Abort
  else
    let tmp_str := snprintf MAX_TMP_STR (format2 baseName channel rank) in
    Returned (strndup tmp_str MAX_TMP_STR).

(** three indices *)
Definition indexStr3 (baseName : string) (channel rank bank : Z)
  : outcome string :=
  if (MAX_TMP_STR <? String.length baseName + 3 * SINGLE_INDEX_LEN)%nat
  then Terminated (ERROR too_long) (Exit (-1))
  else
    let tmp_str := snprintf MAX_TMP_STR (format3 baseName channel rank bank) in
    Returned (strndup tmp_str MAX_TMP_STR).

(* ================================================================== *)
(** ** The output sink *)

(** An [ostream]: the characters already handed to the device and the
    characters still in the stream's buffer. *)
Record ostream : Type := mkOstream {
  device : string;
  pending : string
}.

(** [os << s] for a text [s]. *)
Definition put (s : string) (os : ostream) : ostream :=
  {| device := device os; pending := pending os ++ s |}.

(** [os << std::flush] *)
Definition flush (os : ostream) : ostream :=
  {| device := device os ++ pending os; pending := "" |}.

(** [os << std::endl]: a line terminator, then a flush. *)
Definition endl (os : ostream) : ostream := flush (put newline os).

(** Every character inserted into the stream so far, in order. *)
Definition contents (os : ostream) : string := device os ++ pending os.

Definition empty_sink : ostream := {| device := ""; pending := "" |}.

(* ================================================================== *)
(** ** Values *)

(** The argument of one of the insertion operators generated by
    [ADD_TYPE]: [int], [unsigned], [long], [uint64_t], [float], [double]. *)
Inductive value : Type :=
| of_int (n : Z)
| of_unsigned (n : Z)
| of_long (n : Z)
| of_uint64_t (n : Z)
| of_float (x : spec_float)
| of_double (x : spec_float).

(* ================================================================== *)
(** ** The writer *)

(** The members of [class CSVWriter], and the standard output that
    [finalize] prints its warning to. *)
Record CSVWriter : Type := mkCSVWriter {
  output : ostream;            (* where the output will eventually go *)
  fieldNames : list string;
  finalized : bool;
  idx : Z;
  stdout : string
}.

(** Constructor: [CSVWriter(ostream &_output)], in a process whose
    standard output holds [console] so far. *)
Definition CSVWriter_new (_output : ostream) (console : string) : CSVWriter :=
  {| output := _output; fieldNames := []; finalized := false; idx := 0;
     stdout := console |}.

(** The text of the [printf] in [finalize]. *)
Definition mismatch_warning (a b : Z) : string :=
  " Number of fields doesn't match values (fields=" ++ utoa a
  ++ ", values=" ++ utoa b
  ++ "), check each value has a field name before it" ++ newline.

(** The sink after the header loop, when that loop ends: every field
    name, in order, each followed by a comma.  The loop itself, with its
    [unsigned] counter, is [header_loop] below; it ends, with this sink,
    exactly when there are fewer than [2^32] field names. *)
Definition put_header (names : list string) (os : ostream) : ostream :=
  fold_left (fun os name => put "," (put name os)) names os.

(** The writer after [finalize()], when the call returns (it does unless
    the header loop runs on [2^32] field names or more: see
    [finalize_within]). *)
Definition finalize (w : CSVWriter) : CSVWriter :=
  if negb (finalized w) then
    {| output := flush (endl (put_header (fieldNames w) (output w)));
       fieldNames := fieldNames w;
       finalized := true;
       idx := idx w;
       stdout := stdout w |}
  else
    {| output := endl (output w);
       fieldNames := fieldNames w;
       finalized := finalized w;
       idx := 0;
       stdout :=
         if idx w <? Z.of_nat (List.length (fieldNames w))
         then stdout w
              ++ mismatch_warning (idx w)
                   (wrap (Z.of_nat (List.length (fieldNames w))))
         else stdout w |}.

(** Insertion operators for field names: [operator<<(const char *name)]. *)
Definition insert_cstr (w : CSVWriter) (name : string) : CSVWriter :=
  if negb (finalized w) then
    {| output := output w;
       fieldNames := (fieldNames w ++ [name])%list;
       finalized := finalized w;
       idx := idx w;
       stdout := stdout w |}
  else w.

(** [operator<<(const string &name)]. *)
Definition insert_string (w : CSVWriter) (name : string) : CSVWriter :=
  if negb (finalized w) then
    {| output := output w;
       fieldNames := (fieldNames w ++ [name])%list;
       finalized := finalized w;
       idx := idx w;
       stdout := stdout w |}
  else w.

(** One call on the writer. *)
Inductive call : Type :=
| InsertCStr (name : string)
| InsertString (name : string)
| InsertValue (v : value)
| Finalize.

Section Writer.

(** The text [output << value] inserts for a number, as the sink is
    configured. *)
Variable render : value -> string.

(** Insertion operators for types: the body of [ADD_TYPE(T)]. *)
Definition insert_value (w : CSVWriter) (v : value) : CSVWriter :=
  if finalized w then
    {| output := put "," (put (render v) (output w));
       fieldNames := fieldNames w;
       finalized := finalized w;
       idx := wrap (idx w + 1);
       stdout := stdout w |}
  else w.

Definition step (w : CSVWriter) (c : call) : CSVWriter :=
  match c with
  | InsertCStr name => insert_cstr w name
  | InsertString name => insert_string w name
  | InsertValue v => insert_value w v
  | Finalize => finalize w
  end.

(** A sequence of calls, first to last: the state they leave when each
    of them returns ([run_within] tells whether they do). *)
Definition run (w : CSVWriter) (cs : list call) : CSVWriter :=
  fold_left step cs w.

End Writer.

(* ================================================================== *)
(** ** Calls that may not return *)

(** The header loop as written:
    [for (unsigned i=0; i<fieldNames.size(); i++) output << fieldNames[i] << ","],
    started with the counter at [i].  The counter is an [unsigned] and is
    compared with the 64-bit size of the vector.  [None]: the loop has
    not ended after [fuel] iterations. *)
Fixpoint header_loop (fuel : nat) (names : list string) (i : Z)
    (os : ostream) : option ostream :=
  match fuel with
  | O => None
  | S fuel' =>
      if i <? Z.of_nat (List.length names)
      then header_loop fuel' names (wrap (i + 1))
             (put "," (put (nth (Z.to_nat i) names "") os))
      else Some os
  end.

(** [finalize()] with its header loop run for at most [fuel] iterations.
    [None]: the call has not returned. *)
Definition finalize_within (fuel : nat) (w : CSVWriter) : option CSVWriter :=
  if negb (finalized w) then
    match header_loop fuel (fieldNames w) 0 (output w) with
    | Some os =>
        Some {| output := flush (endl os);
                fieldNames := fieldNames w;
                finalized := true;
                idx := idx w;
                stdout := stdout w |}
    | None => None
    end
  else
    Some {| output := endl (output w);
            fieldNames := fieldNames w;
            finalized := finalized w;
            idx := 0;
            stdout :=
              if idx w <? Z.of_nat (List.length (fieldNames w))
              then stdout w
                   ++ mismatch_warning (idx w)
                        (wrap (Z.of_nat (List.length (fieldNames w))))
              else stdout w |}.

(** One call, and a sequence of calls, each close-row call with at most
    [fuel] iterations of its header loop. *)
Definition step_within (render : value -> string) (fuel : nat)
    (w : CSVWriter) (c : call) : option CSVWriter :=
  match c with
  | Finalize => finalize_within fuel w
  | _ => Some (step render w c)
  end.

Fixpoint run_within (render : value -> string) (fuel : nat) (w : CSVWriter)
    (cs : list call) : option CSVWriter :=
  match cs with
  | [] => Some w
  | c :: cs' =>
      match step_within render fuel w c with
      | Some w' => run_within render fuel w' cs'
      | None => None
      end
  end.

(* ================================================================== *)
(** ** A sink with the default formatting

    One instance of [render]: a stream whose formatting state was never
    changed prints integers in decimal and floating-point numbers the way
    ["%g"] does, with six significant digits.  A floating-point number is
    a [spec_float]: [S754_finite s m e] is [(-1)^s * m * 2^e]. *)

(** Quotient rounded to the nearest integer, ties to even. *)
Definition div_nearest_even (a b : Z) : Z :=
  let q := a / b in
  match 2 * (a mod b) ?= b with
  | Lt => q
  | Gt => q + 1
  | Eq => if Z.even q then q else q + 1
  end.

(** The largest [x] with [den * 10^x <= num], counted up from [x] when
    [den <= num] ... *)
Fixpoint log10_up (fuel : nat) (num den x : Z) : Z :=
  match fuel with
  | O => x
  | S fuel' =>
      if 10 * den <=? num then log10_up fuel' num (10 * den) (x + 1) else x
  end.

(** ... and counted down when [num < den]. *)
Fixpoint log10_down (fuel : nat) (num den x : Z) : Z :=
  match fuel with
  | O => x
  | S fuel' =>
      if num <? den then log10_down fuel' (10 * num) den (x - 1) else x
  end.

(** The decimal exponent of the positive rational [num / den]. *)
Definition decimal_exponent (num den : Z) : Z :=
  let fuel := Z.to_nat (Z.log2 num + Z.log2 den + 2) in
  if den <=? num then log10_up fuel num den 0 else log10_down fuel num den 0.

(** [num / den / 10^(x - 5)], rounded: six significant digits. *)
Definition six_digits (num den x : Z) : Z :=
  let k := 5 - x in
  if 0 <=? k then div_nearest_even (num * 10 ^ k) den
  else div_nearest_even num (den * 10 ^ (- k)).

Fixpoint strip_zeros (s : string) : string :=
  match s with
  | EmptyString => EmptyString
  | String c r =>
      match strip_zeros r with
      | EmptyString => if Ascii.eqb c "0" then EmptyString else String c EmptyString
      | r' => String c r'
      end
  end.

Fixpoint zeros (n : nat) : string :=
  match n with
  | O => ""
  | S n' => String "0" (zeros n')
  end.

Definition fraction (digits : string) : string :=
  match strip_zeros digits with
  | EmptyString => ""
  | f => "." ++ f
  end.

(** ["%g"] for the positive rational [num / den]. *)
Definition format_g (num den : Z) : string :=
  let x0 := decimal_exponent num den in
  let d0 := six_digits num den x0 in
  let x := if d0 =? 10 ^ 6 then x0 + 1 else x0 in
  let ds := utoa (if d0 =? 10 ^ 6 then 10 ^ 5 else d0) in
  if (x <? -4) || (6 <=? x) then
    substring 0 1 ds ++ fraction (substring 1 5 ds)
    ++ "e" ++ (if x <? 0 then "-" else "+")
    ++ (if Z.abs x <? 10 then "0" else "") ++ utoa (Z.abs x)
  else if 0 <=? x then
    substring 0 (Z.to_nat (x + 1)) ds
    ++ fraction (substring (Z.to_nat (x + 1)) (Z.to_nat (5 - x)) ds)
  else
    "0." ++ zeros (Z.to_nat (- x - 1)) ++ strip_zeros ds.

(** A floating-point number on the default-formatted stream.  A
    [spec_float] keeps no sign for a NaN, so every NaN is written [nan]
    here (the library writes [-nan] for one whose sign bit is set). *)
Definition format_float (x : spec_float) : string :=
  match x with
  | S754_zero s => if s then "-0" else "0"
  | S754_infinity s => if s then "-inf" else "inf"
  | S754_nan => "nan"
  | S754_finite s m e =>
      (if s then "-" else "")
      ++ (if 0 <=? e then format_g (Z.pos m * 2 ^ e) 1
          else format_g (Z.pos m) (2 ^ (- e)))
  end.

Definition ostream_default (v : value) : string :=
  match v with
  | of_int n | of_long n => itoa n
  | of_unsigned n | of_uint64_t n => utoa n
  | of_float x | of_double x => format_float x
  end.


(* ================================================================== *)
(** ** Vocabulary of the properties *)

(** The two phases of the protocol, read off the [finalized] flag. *)
Inductive phase : Type := Collecting | Emitting.

Definition phase_of (w : CSVWriter) : phase :=
  if finalized w then Emitting else Collecting.

(** A field-name insertion through either overload. *)
Inductive overload : Type := CStr | StdString.

Definition name_call (n : overload * string) : call :=
  match fst n with
  | CStr => InsertCStr (snd n)
  | StdString => InsertString (snd n)
  end.

Definition is_finalize (c : call) : bool :=
  match c with Finalize => true | _ => false end.

(** The names a sequence of calls offers, in order. *)
Fixpoint names_of (cs : list call) : list string :=
  match cs with
  | [] => []
  | InsertCStr name :: cs' | InsertString name :: cs' => name :: names_of cs'
  | _ :: cs' => names_of cs'
  end.

(** [name1,name2,...,nameN,] *)
Fixpoint cells (texts : list string) : string :=
  match texts with
  | [] => ""
  | t :: texts' => t ++ "," ++ cells texts'
  end.

Definition header_line (names : list string) : string :=
  cells names ++ newline.

(** The number of values inserted since the last close-row call, read off
    the history of calls. *)
Definition count_call (n : Z) (c : call) : Z :=
  match c with
  | InsertValue _ => n + 1
  | Finalize => 0
  | _ => n
  end.

Definition values_since_close (cs : list call) : Z :=
  fold_left count_call cs 0.

(** The counter against a count [n] of values: the count modulo [2^32]
    once the header is committed, zero before. *)
Definition counter_inv (w : CSVWriter) (n : Z) : Prop :=
  if finalized w then idx w = wrap n else idx w = 0.

(** The [double]s [1.5] and [2.5] (binary64: 53-bit significand). *)
Definition double_1_5 : spec_float := S754_finite false 6755399441055744 (-52).
Definition double_2_5 : spec_float := S754_finite false 5629499534213120 (-51).

(** The documented usage, as the spec words it. *)
Definition scenario : list call :=
  [ InsertCStr "Bandwidth"; InsertCStr "Latency"; Finalize;
    InsertValue (of_double double_1_5); InsertValue (of_int 15); Finalize;
    InsertValue (of_double double_2_5); InsertValue (of_int 25); Finalize ].

(** The usage example in the header's comment: every value is preceded by
    its field name, in every cycle. *)
Definition double_0_5 : spec_float := S754_finite false 4503599627370496 (-53).

Definition header_example : list call :=
  [ InsertCStr "Bandwidth"; InsertValue (of_double double_0_5);
    InsertCStr "Latency"; InsertValue (of_int 5); Finalize;
    InsertCStr "Bandwidth"; InsertValue (of_double double_1_5);
    InsertCStr "Latency"; InsertValue (of_int 15); Finalize;
    InsertCStr "Bandwidth"; InsertValue (of_double double_2_5);
    InsertCStr "Latency"; InsertValue (of_int 25); Finalize ].

(** The three lines the documented usage produces. *)
Definition scenario_output : string :=
  "Bandwidth,Latency," ++ newline
  ++ "1.5,15," ++ newline
  ++ "2.5,25," ++ newline.

(** One field, two values in the row. *)
Definition surplus_row : list call :=
  [ InsertCStr "A"; Finalize; InsertValue (of_int 1); InsertValue (of_int 2) ].

(** A row of [2^32] values. *)
Definition overlong_row : list call :=
  Finalize :: repeat (InsertValue (of_int 0)) (Z.to_nat (2 ^ 32)).

(** [2^32] field names, through either overload. *)
Definition many_names : list (overload * string) :=
  repeat (CStr, "a") (Z.to_nat (2 ^ 32)).

Definition many_string_names : list (overload * string) :=
  repeat (StdString, "n") (Z.to_nat (2 ^ 32)).

(** A base name of 59 characters. *)
Definition base59 : string :=
  "total_aggregate_average_bandwidth_per_channel_per_rank_bank".

(** The values a sequence of calls offers, in order. *)
Fixpoint values_of (cs : list call) : list value :=
  match cs with
  | [] => []
  | InsertValue v :: cs' => v :: values_of cs'
  | _ :: cs' => values_of cs'
  end.

(** [v1,v2,...,vM,] and a line terminator, as the sink prints the values. *)
Definition row_line (render : value -> string) (vs : list value) : string :=
  cells (map render vs) ++ newline.

Fixpoint rows_text (render : value -> string) (rows : list (list value))
  : string :=
  match rows with
  | [] => ""
  | r :: rows' => row_line render r ++ rows_text render rows'
  end.

(** One row: its values, then close-row. *)
Definition row_calls (r : list value) : list call :=
  (map InsertValue r ++ [Finalize])%list.

(** A whole session: the field names, close-row, then row after row. *)
Definition session (names : list (overload * string))
    (rows : list (list value)) : list call :=
  (map name_call names ++ [Finalize] ++ flat_map row_calls rows)%list.

(** The warnings the rows of a session draw, for a header of [N] names. *)
Fixpoint warnings_text (N : Z) (rows : list (list value)) : string :=
  match rows with
  | [] => ""
  | r :: rows' =>
      (if Z.of_nat (List.length r) <? N
       then mismatch_warning (Z.of_nat (List.length r)) (wrap N)
       else "")
      ++ warnings_text N rows'
  end.

(** Two writers that differ at most in their sinks. *)
Definition same_control (w1 w2 : CSVWriter) : Prop :=
  fieldNames w1 = fieldNames w2
  /\ finalized w1 = finalized w2
  /\ idx w1 = idx w2
  /\ stdout w1 = stdout w2.

(* ================================================================== *)
(** * Properties *)

(** ** Text and integers *)

Lemma append_nil_r (s : string) : s ++ "" = s.
Proof. induction s as [|c s IH]; simpl; [reflexivity | now rewrite IH]. Qed.

Lemma append_assoc (s t u : string) : (s ++ t) ++ u = s ++ (t ++ u).
Proof. induction s as [|c s IH]; simpl; [reflexivity | now rewrite IH]. Qed.

Lemma length_append (s t : string) :
  String.length (s ++ t) = (String.length s + String.length t)%nat.
Proof. induction s as [|c s IH]; simpl; [reflexivity | now rewrite IH]. Qed.

Lemma substring_all (s : string) (n : nat) :
  (String.length s <= n)%nat -> substring 0 n s = s.
Proof.
  revert n; induction s as [|c s IH]; intros n Hn.
  - destruct n; reflexivity.
  - destruct n as [|n]; simpl in *; [lia |].
    rewrite IH by lia. reflexivity.
Qed.

Lemma length_substring_0 (s : string) (n : nat) :
  String.length (substring 0 n s) = Nat.min n (String.length s).
Proof.
  revert n; induction s as [|c s IH]; intros [|n]; simpl; try reflexivity.
  now rewrite IH.
Qed.

Lemma wrap_range (z : Z) : 0 <= wrap z < 2 ^ 32.
Proof. unfold wrap. apply Z.mod_pos_bound. lia. Qed.

Lemma wrap_small (z : Z) : 0 <= z < 2 ^ 32 -> wrap z = z.
Proof. intros H. unfold wrap. apply Z.mod_small. exact H. Qed.


Example doubles_are_binary64 :
  forallb (valid_binary 53 1024) [double_0_5; double_1_5; double_2_5] = true.
Proof. reflexivity. Qed.

Example base59_length : String.length base59 = 59%nat.
Proof. reflexivity. Qed.

Lemma utoa_two_digits (n : Z) :
  0 <= n < 100 -> (String.length (utoa n) <= 2)%nat.
Proof.
  intros Hn.
  assert (Hall : forallb (fun k => (String.length (utoa (Z.of_nat k)) <=? 2)%nat)
                   (seq 0 100) = true) by (vm_compute; reflexivity).
  rewrite forallb_forall in Hall.
  specialize (Hall (Z.to_nat n)).
  rewrite Z2Nat.id in Hall by lia.
  apply Nat.leb_le, Hall, in_seq. lia.
Qed.

(** ** The indexed-name builder *)

Lemma length_subscript_two_digits (i : Z) :
  0 <= i < 100 -> (String.length (subscript i) <= 4)%nat.
Proof.
  intros Hi. unfold subscript. simpl. rewrite length_append. simpl.
  rewrite wrap_small by lia.
  pose proof (utoa_two_digits i Hi). lia.
Qed.

(** [snprintf] into the buffer, then [strndup]: the first 63 characters. *)
Lemma buffer_prefix (formatted : string) :
  strndup (snprintf MAX_TMP_STR formatted) MAX_TMP_STR
  = substring 0 63 formatted.
Proof.
  unfold strndup, snprintf, MAX_TMP_STR. cbn [Nat.sub].
  apply substring_all. rewrite length_substring_0. lia.
Qed.

(** What fits the buffer comes back whole. *)
Lemma buffer_keeps (formatted : string) :
  (String.length formatted < MAX_TMP_STR)%nat ->
  strndup (snprintf MAX_TMP_STR formatted) MAX_TMP_STR = formatted.
Proof.
  intros Hlen. rewrite buffer_prefix.
  apply substring_all. unfold MAX_TMP_STR in Hlen. lia.
Qed.

(** Within the capacity check the builder returns what the buffer holds. *)
Lemma indexStr_returns (baseName : string) (channel rank bank : Z) :
  ((String.length baseName + 4 <= 64)%nat ->
   indexStr1 baseName channel
   = Returned (substring 0 63 (format1 baseName channel)))
  /\ ((String.length baseName + 4 * 2 <= 64)%nat ->
   indexStr2 baseName channel rank
   = Returned (substring 0 63 (format2 baseName channel rank)))
  /\ ((String.length baseName + 4 * 3 <= 64)%nat ->
   indexStr3 baseName channel rank bank
   = Returned (substring 0 63 (format3 baseName channel rank bank))).
Proof.
  unfold indexStr1, indexStr2, indexStr3, SINGLE_INDEX_LEN.
  repeat apply conj; intros H;
    match goal with
    | |- context [(?a <? ?b)%nat] => destruct (Nat.ltb_spec a b)
    end; try (unfold MAX_TMP_STR in *; lia);
    cbv zeta; now rewrite buffer_prefix.
Qed.

(** C4: when the base name's length plus four characters per index
    exceeds [MAX_TMP_STR] (64), each overload of the indexed-name builder
    reports the error and terminates the process ([abort()] for one and
    two indices, [exit(-1)] for three); otherwise it returns a string. *)
Theorem indexStr_capacity (baseName : string) (channel rank bank : Z) :
  ((64 < String.length baseName + 4)%nat ->
     indexStr1 baseName channel = Terminated (ERROR too_long) Abort)
  /\ ((String.length baseName + 4 <= 64)%nat ->
     exists s, indexStr1 baseName channel = Returned s)
  /\ ((64 < String.length baseName + 4 * 2)%nat ->
     indexStr2 baseName channel rank = Terminated (ERROR too_long) Abort)
  /\ ((String.length baseName + 4 * 2 <= 64)%nat ->
     exists s, indexStr2 baseName channel rank = Returned s)
  /\ ((64 < String.length baseName + 4 * 3)%nat ->
     indexStr3 baseName channel rank bank
     = Terminated (ERROR too_long) (Exit (-1)))
  /\ ((String.length baseName + 4 * 3 <= 64)%nat ->
     exists s, indexStr3 baseName channel rank bank = Returned s).
Proof.
  unfold indexStr1, indexStr2, indexStr3, MAX_TMP_STR, SINGLE_INDEX_LEN.
  repeat split; intros H;
    match goal with
    | |- context [(?a <? ?b)%nat] => destruct (Nat.ltb_spec a b)
    end; try lia; try reflexivity; eexists; reflexivity.
Qed.

Lemma indexStr_capacity_witness :
  indexStr1 (base59 ++ "xy") 0 = Terminated (ERROR too_long) Abort
  /\ (exists s, indexStr1 "Bandwidth" 3 = Returned s)
  /\ indexStr2 base59 0 0 = Terminated (ERROR too_long) Abort
  /\ (exists s, indexStr2 "Latency" 0 2 = Returned s)
  /\ indexStr3 base59 0 0 0 = Terminated (ERROR too_long) (Exit (-1))
  /\ (exists s, indexStr3 "X" 1 2 3 = Returned s).
Proof.
  destruct (indexStr_capacity (base59 ++ "xy") 0 0 0) as [H1 _].
  destruct (indexStr_capacity "Bandwidth" 3 0 0) as [_ [H2 _]].
  destruct (indexStr_capacity base59 0 0 0) as [_ [_ [H3 [_ [H5 _]]]]].
  destruct (indexStr_capacity "Latency" 0 2 0) as [_ [_ [_ [H4 _]]]].
  destruct (indexStr_capacity "X" 1 2 3) as [_ [_ [_ [_ [_ H6]]]]].
  repeat apply conj;
    [apply H1 | apply H2 | apply H3 | apply H4 | apply H5 | apply H6];
    simpl; lia.
Defined.

Lemma indexStr1_fits (baseName : string) (channel : Z) :
  (String.length baseName + 4 <= 64)%nat ->
  (String.length (format1 baseName channel) < 64)%nat ->
  indexStr1 baseName channel = Returned (format1 baseName channel).
Proof.
  intros Hcap Hfit. unfold indexStr1, SINGLE_INDEX_LEN.
  destruct (Nat.ltb_spec MAX_TMP_STR (String.length baseName + 4));
    [unfold MAX_TMP_STR in *; lia |].
  cbv zeta. now rewrite buffer_keeps.
Qed.

Lemma indexStr2_fits (baseName : string) (channel rank : Z) :
  (String.length baseName + 4 * 2 <= 64)%nat ->
  (String.length (format2 baseName channel rank) < 64)%nat ->
  indexStr2 baseName channel rank = Returned (format2 baseName channel rank).
Proof.
  intros Hcap Hfit. unfold indexStr2, SINGLE_INDEX_LEN.
  destruct (Nat.ltb_spec MAX_TMP_STR (String.length baseName + 2 * 4));
    [unfold MAX_TMP_STR in *; lia |].
  cbv zeta. now rewrite buffer_keeps.
Qed.

Lemma indexStr3_fits (baseName : string) (channel rank bank : Z) :
  (String.length baseName + 4 * 3 <= 64)%nat ->
  (String.length (format3 baseName channel rank bank) < 64)%nat ->
  indexStr3 baseName channel rank bank
  = Returned (format3 baseName channel rank bank).
Proof.
  intros Hcap Hfit. unfold indexStr3, SINGLE_INDEX_LEN.
  destruct (Nat.ltb_spec MAX_TMP_STR (String.length baseName + 3 * 4));
    [unfold MAX_TMP_STR in *; lia |].
  cbv zeta. now rewrite buffer_keeps.
Qed.

(** C5, as stated, fails: a base name of 59 characters passes the capacity
    check (59 + 4 <= 64), yet with the three-digit index 100 the formatted
    name has 64 characters and the builder returns only its first 63,
    without the closing bracket. *)
Lemma indexStr_cuts_long_index :
  (String.length base59 + SINGLE_INDEX_LEN <= MAX_TMP_STR)%nat
  /\ indexStr1 base59 100 = Returned (base59 ++ "[100")
  /\ indexStr1 base59 100 <> Returned (format1 base59 100).
Proof.
  split; [vm_compute; lia |].
  split; [vm_compute; reflexivity |].
  vm_compute. discriminate.
Qed.

(** C5, amended: within the capacity check, and when the formatted name
    has at most 63 characters (the buffer's capacity less the terminating
    NUL), the builder returns [base[i]], [base[i][j]] or [base[i][j][k]]
    with the indices in unsigned decimal.  The formatted name is that
    short whenever the base name's length plus four per index is below 64
    and every index has at most two digits.  The three documented calls
    give ["Bandwidth[3]"], ["Latency[0][2]"] and ["X[1][2][3]"]. *)
Theorem indexStr_formats (baseName : string) (channel rank bank : Z) :
  ((String.length baseName + 4 <= 64)%nat ->
   (String.length (format1 baseName channel) < 64)%nat ->
   indexStr1 baseName channel = Returned (format1 baseName channel))
  /\ ((String.length baseName + 4 * 2 <= 64)%nat ->
   (String.length (format2 baseName channel rank) < 64)%nat ->
   indexStr2 baseName channel rank = Returned (format2 baseName channel rank))
  /\ ((String.length baseName + 4 * 3 <= 64)%nat ->
   (String.length (format3 baseName channel rank bank) < 64)%nat ->
   indexStr3 baseName channel rank bank
   = Returned (format3 baseName channel rank bank))
  /\ ((String.length baseName + 4 < 64)%nat -> 0 <= channel < 100 ->
   indexStr1 baseName channel
   = Returned (baseName ++ "[" ++ utoa channel ++ "]"))
  /\ ((String.length baseName + 4 * 2 < 64)%nat ->
   0 <= channel < 100 -> 0 <= rank < 100 ->
   indexStr2 baseName channel rank
   = Returned (baseName ++ "[" ++ utoa channel ++ "]"
                        ++ "[" ++ utoa rank ++ "]"))
  /\ ((String.length baseName + 4 * 3 < 64)%nat ->
   0 <= channel < 100 -> 0 <= rank < 100 -> 0 <= bank < 100 ->
   indexStr3 baseName channel rank bank
   = Returned (baseName ++ "[" ++ utoa channel ++ "]"
                        ++ "[" ++ utoa rank ++ "]"
                        ++ "[" ++ utoa bank ++ "]"))
  /\ indexStr1 "Bandwidth" 3 = Returned "Bandwidth[3]"
  /\ indexStr2 "Latency" 0 2 = Returned "Latency[0][2]"
  /\ indexStr3 "X" 1 2 3 = Returned "X[1][2][3]".
Proof.
  split; [apply indexStr1_fits |].
  split; [apply indexStr2_fits |].
  split; [apply indexStr3_fits |].
  split; [| split; [| split; [| repeat split]]].
  - intros Hlen Hc.
    rewrite indexStr1_fits.
    + unfold format1, subscript. rewrite wrap_small by lia.
      simpl. now rewrite ?append_assoc.
    + lia.
    + unfold format1. rewrite length_append.
      pose proof (length_subscript_two_digits channel Hc). lia.
  - intros Hlen Hc Hr.
    rewrite indexStr2_fits.
    + unfold format2, subscript. rewrite !wrap_small by lia.
      simpl. now rewrite ?append_assoc.
    + lia.
    + unfold format2. rewrite !length_append.
      pose proof (length_subscript_two_digits channel Hc).
      pose proof (length_subscript_two_digits rank Hr). lia.
  - intros Hlen Hc Hr Hb.
    rewrite indexStr3_fits.
    + unfold format3, subscript. rewrite !wrap_small by lia.
      simpl. now rewrite ?append_assoc.
    + lia.
    + unfold format3. rewrite !length_append.
      pose proof (length_subscript_two_digits channel Hc).
      pose proof (length_subscript_two_digits rank Hr).
      pose proof (length_subscript_two_digits bank Hb). lia.
Qed.

Lemma indexStr_formats_witness :
  indexStr1 "Bandwidth" 3 = Returned (format1 "Bandwidth" 3)
  /\ indexStr2 "Latency" 0 2 = Returned (format2 "Latency" 0 2)
  /\ indexStr3 "X" 1 2 3 = Returned (format3 "X" 1 2 3)
  /\ indexStr1 "Bandwidth" 3 = Returned ("Bandwidth" ++ "[" ++ utoa 3 ++ "]").
Proof.
  destruct (indexStr_formats "Bandwidth" 3 0 0) as [H1 [_ [_ [H4 _]]]].
  destruct (indexStr_formats "Latency" 0 2 0) as [_ [H2 _]].
  destruct (indexStr_formats "X" 1 2 3) as [_ [_ [H3 _]]].
  repeat apply conj.
  - apply H1; simpl; lia.
  - apply H2; simpl; lia.
  - apply H3; simpl; lia.
  - apply H4; simpl; lia.
Defined.

(** ** The output sink *)

Lemma contents_put (s : string) (os : ostream) :
  contents (put s os) = contents os ++ s.
Proof. unfold contents, put. simpl. now rewrite append_assoc. Qed.

Lemma contents_flush (os : ostream) : contents (flush os) = contents os.
Proof. unfold contents, flush. simpl. now rewrite append_nil_r. Qed.

Lemma device_flush (os : ostream) : device (flush os) = contents os.
Proof. reflexivity. Qed.

Lemma pending_flush (os : ostream) : pending (flush os) = "".
Proof. reflexivity. Qed.

Lemma contents_endl (os : ostream) :
  contents (endl os) = contents os ++ newline.
Proof. unfold endl. now rewrite contents_flush, contents_put. Qed.

Lemma device_endl (os : ostream) : device (endl os) = contents os ++ newline.
Proof. unfold endl. now rewrite device_flush, contents_put. Qed.

Lemma pending_endl (os : ostream) : pending (endl os) = "".
Proof. reflexivity. Qed.

Lemma contents_put_header (names : list string) (os : ostream) :
  contents (put_header names os) = contents os ++ cells names.
Proof.
  unfold put_header. revert os.
  induction names as [|name names IH]; intros os; simpl.
  - now rewrite append_nil_r.
  - rewrite IH, !contents_put, !append_assoc. reflexivity.
Qed.

(** A text is not its own proper extension. *)
Lemma append_neq (s t : string) : t <> "" -> s ++ t <> s.
Proof.
  intros Ht Heq. apply (f_equal String.length) in Heq.
  rewrite length_append in Heq.
  destruct t; [congruence | simpl in Heq; lia].
Qed.

(** ** Sequences of calls *)

Section Protocol.

Variable render : value -> string.

Lemma run_cons (w : CSVWriter) (c : call) (cs : list call) :
  run render w (c :: cs) = run render (step render w c) cs.
Proof. reflexivity. Qed.

Lemma run_app (w : CSVWriter) (cs cs' : list call) :
  run render w (cs ++ cs') = run render (run render w cs) cs'.
Proof. apply fold_left_app. Qed.

(** Before the first close-row call only the names are recorded. *)
Lemma run_collecting (cs : list call) :
  forall os names i console,
    existsb is_finalize cs = false ->
    run render (mkCSVWriter os names false i console) cs
    = mkCSVWriter os (names ++ names_of cs) false i console.
Proof.
  induction cs as [|c cs IH]; intros os names i console Hno.
  - simpl. now rewrite app_nil_r.
  - rewrite run_cons. simpl in Hno. apply orb_false_iff in Hno as [Hc Hcs].
    destruct c as [name|name|v|]; simpl in Hc; try discriminate;
      cbn [step insert_cstr insert_string insert_value finalized negb
           output fieldNames idx stdout names_of];
      rewrite IH by assumption; try reflexivity;
      now rewrite <- app_assoc.
Qed.

End Protocol.

Lemma names_of_name_calls (l : list (overload * string)) :
  names_of (map name_call l) = map snd l.
Proof.
  induction l as [|[[|] name] l IH]; simpl; [reflexivity | now rewrite IH ..].
Qed.

Lemma name_calls_no_finalize (l : list (overload * string)) :
  existsb is_finalize (map name_call l) = false.
Proof. induction l as [|[[|] name] l IH]; simpl; auto. Qed.

(** ** Calls in the emitting phase *)

Lemma fieldNames_finalize (w : CSVWriter) :
  fieldNames (finalize w) = fieldNames w.
Proof. unfold finalize. now destruct (finalized w). Qed.

Lemma finalized_finalize (w : CSVWriter) : finalized (finalize w) = true.
Proof. unfold finalize. now destruct (finalized w) eqn:E. Qed.

Lemma step_emitting (render : value -> string) (w : CSVWriter) (c : call) :
  finalized w = true ->
  finalized (step render w c) = true
  /\ fieldNames (step render w c) = fieldNames w.
Proof.
  intros H. destruct c as [name|name|v|];
    cbn [step]; unfold insert_cstr, insert_string, insert_value, finalize;
    rewrite H; auto.
Qed.

Lemma run_emitting (render : value -> string) (cs : list call) :
  forall w, finalized w = true ->
    finalized (run render w cs) = true
    /\ fieldNames (run render w cs) = fieldNames w.
Proof.
  induction cs as [|c cs IH]; intros w H; [now split |].
  rewrite run_cons.
  destruct (step_emitting render w c H) as [Hf Hn].
  destruct (IH _ Hf) as [Hf' Hn']. split; congruence.
Qed.

(** ** The header loop *)

(** From the counter at the length of [pre], the loop adds the names that
    are left, when the counter can reach the size. *)
Lemma header_loop_from (post : list string) :
  forall (pre : list string) (fuel : nat) (os : ostream),
    Z.of_nat (List.length (pre ++ post)) < 2 ^ 32 ->
    (List.length post < fuel)%nat ->
    header_loop fuel (pre ++ post) (Z.of_nat (List.length pre)) os
    = Some (put_header post os).
Proof.
  induction post as [|name post IH]; intros pre fuel os Hsize Hfuel.
  - destruct fuel as [|fuel]; [simpl in Hfuel; lia |].
    cbn [header_loop]. rewrite app_nil_r.
    now rewrite Z.ltb_irrefl.
  - destruct fuel as [|fuel]; [simpl in Hfuel; lia |].
    cbn [header_loop].
    rewrite length_app in *. cbn [List.length] in *.
    destruct (Z.ltb_spec (Z.of_nat (List.length pre))
                (Z.of_nat (List.length pre + S (List.length post))));
      [| lia].
    rewrite Nat2Z.id, nth_middle.
    rewrite wrap_small by lia.
    replace (Z.of_nat (List.length pre) + 1)
      with (Z.of_nat (List.length (pre ++ [name])))
      by (rewrite length_app; simpl; lia).
    replace (pre ++ name :: post)%list with ((pre ++ [name]) ++ post)%list
      by (now rewrite <- app_assoc).
    rewrite IH.
    + reflexivity.
    + rewrite !length_app. simpl. lia.
    + lia.
Qed.

(** With fewer than [2^32] names the loop ends, within one iteration more
    than there are names, and has added every name and its comma. *)
Lemma header_loop_ends (names : list string) (fuel : nat) (os : ostream) :
  Z.of_nat (List.length names) < 2 ^ 32 ->
  (List.length names < fuel)%nat ->
  header_loop fuel names 0 os = Some (put_header names os).
Proof.
  intros Hsize Hfuel. apply (header_loop_from names [] fuel os); assumption.
Qed.

(** With [2^32] names or more the counter wraps before it reaches the
    size: the loop never ends. *)
Lemma header_loop_never_ends (names : list string) :
  2 ^ 32 <= Z.of_nat (List.length names) ->
  forall (fuel : nat) (i : Z) (os : ostream),
    0 <= i < 2 ^ 32 -> header_loop fuel names i os = None.
Proof.
  intros Hsize. induction fuel as [|fuel IH]; intros i os Hi; [reflexivity |].
  cbn [header_loop].
  destruct (Z.ltb_spec i (Z.of_nat (List.length names))); [| lia].
  apply IH, wrap_range.
Qed.

(** When the loop ends, it ends with the sink of [put_header]. *)
Lemma header_loop_sound (names : list string) (fuel : nat)
    (os os' : ostream) :
  header_loop fuel names 0 os = Some os' -> os' = put_header names os.
Proof.
  intros Hloop.
  destruct (Z.lt_ge_cases (Z.of_nat (List.length names)) (2 ^ 32))
    as [Hsize|Hsize].
  - destruct (Nat.lt_ge_cases (List.length names) fuel) as [Hfuel|Hfuel].
    + rewrite header_loop_ends in Hloop by assumption. congruence.
    + exfalso. revert Hloop.
      assert (Hgen : forall post pre fuel' os0,
                 names = (pre ++ post)%list ->
                 (fuel' <= List.length post)%nat ->
                 header_loop fuel' names (Z.of_nat (List.length pre)) os0
                 = None).
      { induction post as [|name post IH]; intros pre fuel' os0 Hn Hf.
        - simpl in Hf. now replace fuel' with 0%nat by lia.
        - destruct fuel' as [|fuel']; [reflexivity |].
          cbn [header_loop]. subst names.
          rewrite length_app in *. cbn [List.length] in *.
          destruct (Z.ltb_spec (Z.of_nat (List.length pre))
                      (Z.of_nat (List.length pre + S (List.length post))));
            [| lia].
          rewrite wrap_small by lia.
          replace (Z.of_nat (List.length pre) + 1)
            with (Z.of_nat (List.length (pre ++ [name])))
            by (rewrite length_app; simpl; lia).
          apply IH; [now rewrite <- app_assoc | lia]. }
      intros Hloop.
      pose proof (Hgen names [] fuel os eq_refl Hfuel) as Hnone.
      change (Z.of_nat (List.length (@nil string))) with 0 in Hnone.
      congruence.
  - rewrite header_loop_never_ends in Hloop by (assumption || lia).
    discriminate.
Qed.

(** The call returns in the emitting phase, and in the collecting phase
    when there are fewer than [2^32] names; it then leaves the state of
    [finalize]. *)
Lemma finalize_within_returns (fuel : nat) (w : CSVWriter) :
  finalized w = true
  \/ (Z.of_nat (List.length (fieldNames w)) < 2 ^ 32
      /\ (List.length (fieldNames w) < fuel)%nat) ->
  finalize_within fuel w = Some (finalize w).
Proof.
  unfold finalize_within, finalize.
  destruct (finalized w) eqn:Hw; cbn [negb]; [reflexivity |].
  intros [Hf | [Hsize Hfuel]]; [discriminate |].
  now rewrite header_loop_ends.
Qed.

Lemma finalize_within_sound (fuel : nat) (w w' : CSVWriter) :
  finalize_within fuel w = Some w' -> w' = finalize w.
Proof.
  unfold finalize_within, finalize.
  destruct (finalized w); cbn [negb]; [congruence |].
  destruct (header_loop fuel (fieldNames w) 0 (output w)) as [os|] eqn:Hloop;
    [| discriminate].
  apply header_loop_sound in Hloop. subst os. congruence.
Qed.

(** On [2^32] names or more the first close-row call never returns. *)
Lemma finalize_within_hangs (fuel : nat) (w : CSVWriter) :
  finalized w = false ->
  2 ^ 32 <= Z.of_nat (List.length (fieldNames w)) ->
  finalize_within fuel w = None.
Proof.
  intros Hw Hsize. unfold finalize_within. rewrite Hw. cbn [negb].
  rewrite header_loop_never_ends by (assumption || lia). reflexivity.
Qed.

Lemma run_within_app (render : value -> string) (fuel : nat)
    (cs cs' : list call) :
  forall w,
    run_within render fuel w (cs ++ cs')
    = match run_within render fuel w cs with
      | Some w' => run_within render fuel w' cs'
      | None => None
      end.
Proof.
  induction cs as [|c cs IH]; intros w; [reflexivity |].
  cbn [app run_within].
  destruct (step_within render fuel w c); [apply IH | reflexivity].
Qed.

(** Whenever the calls all return, they leave the state of [run]. *)
Lemma run_within_sound (render : value -> string) (fuel : nat)
    (cs : list call) :
  forall w w', run_within render fuel w cs = Some w' -> w' = run render w cs.
Proof.
  induction cs as [|c cs IH]; intros w w' H;
    [simpl in H; injection H as <-; reflexivity |].
  cbn [run_within] in H.
  destruct (step_within render fuel w c) as [w1|] eqn:Hstep;
    [| discriminate].
  rewrite run_cons. apply IH in H. subst w'. f_equal.
  destruct c; cbn [step_within step] in *;
    try congruence.
  symmetry. now apply finalize_within_sound in Hstep.
Qed.

(** The calls all return when the names that a collecting writer has and
    is offered number fewer than [2^32] (and fewer than [fuel]); in the
    emitting phase they always return. *)
Lemma run_within_returns (render : value -> string) (fuel : nat)
    (cs : list call) :
  forall w,
    finalized w = true
    \/ (Z.of_nat (List.length (fieldNames w) + List.length (names_of cs))
        < 2 ^ 32
        /\ (List.length (fieldNames w) + List.length (names_of cs) < fuel)%nat)
    ->
    run_within render fuel w cs = Some (run render w cs).
Proof.
  induction cs as [|c cs IH]; intros w H; [reflexivity |].
  rewrite run_cons. cbn [run_within].
  assert (Hstep : step_within render fuel w c = Some (step render w c)).
  { destruct c; cbn [step_within step]; try reflexivity.
    apply finalize_within_returns.
    destruct H as [Hw | [Hsize Hfuel]]; [now left | right].
    cbn [names_of] in *. lia. }
  rewrite Hstep. apply IH.
  destruct (finalized w) eqn:Hw.
  - left. now apply step_emitting.
  - destruct H as [Hf | [Hsize Hfuel]]; [discriminate |].
    destruct c as [name|name|v|]; cbn [step names_of List.length] in *.
    + right. unfold insert_cstr. rewrite Hw. cbn [negb fieldNames].
      rewrite length_app. cbn [List.length]. lia.
    + right. unfold insert_string. rewrite Hw. cbn [negb fieldNames].
      rewrite length_app. cbn [List.length]. lia.
    + right. unfold insert_value. rewrite Hw. lia.
    + left. apply finalized_finalize.
Qed.

Lemma names_of_app (cs cs' : list call) :
  names_of (cs ++ cs') = (names_of cs ++ names_of cs')%list.
Proof.
  induction cs as [|c cs IH]; [reflexivity |].
  destruct c; cbn [app names_of]; rewrite IH; reflexivity.
Qed.

Lemma names_of_rows (rows : list (list value)) :
  names_of (flat_map row_calls rows) = [].
Proof.
  induction rows as [|r rows IH]; [reflexivity |].
  cbn [flat_map]. rewrite names_of_app, IH, app_nil_r.
  unfold row_calls. rewrite names_of_app. cbn [names_of].
  rewrite app_nil_r. induction r as [|v r IHr]; [reflexivity | exact IHr].
Qed.

Lemma names_of_session (names : list (overload * string))
    (rows : list (list value)) :
  names_of (session names rows) = map snd names.
Proof.
  unfold session. rewrite !names_of_app, names_of_name_calls, names_of_rows.
  cbn [names_of]. now rewrite !app_nil_r.
Qed.

(** On a fresh writer every call returns when fewer than [2^32] names are
    offered. *)
Lemma fresh_run_returns (render : value -> string) (os : ostream)
    (console : string) (cs : list call) :
  Z.of_nat (List.length (names_of cs)) < 2 ^ 32 ->
  run_within render (S (List.length (names_of cs)))
    (CSVWriter_new os console) cs
  = Some (run render (CSVWriter_new os console) cs).
Proof.
  intros Hbound. apply run_within_returns. right.
  cbn [CSVWriter_new fieldNames List.length Nat.add]. split; [exact Hbound | lia].
Qed.

Lemma run_within_no_finalize (render : value -> string) (fuel : nat)
    (cs : list call) :
  existsb is_finalize cs = false ->
  forall w, run_within render fuel w cs = Some (run render w cs).
Proof.
  induction cs as [|c cs IH]; intros Hno w; [reflexivity |].
  simpl in Hno. apply orb_false_iff in Hno as [Hc Hcs].
  rewrite run_cons. cbn [run_within].
  destruct c; try discriminate; cbn [step_within]; now apply IH.
Qed.

(** After [2^32] names or more, the writer is still collecting and its
    first close-row call never returns. *)
Lemma collecting_hangs (render : value -> string) (os : ostream)
    (console : string) (l : list (overload * string)) :
  2 ^ 32 <= Z.of_nat (List.length l) ->
  phase_of (run render (CSVWriter_new os console) (map name_call l))
  = Collecting
  /\ forall fuel,
       finalize_within fuel
         (run render (CSVWriter_new os console) (map name_call l))
       = None.
Proof.
  intros Hsize. unfold CSVWriter_new.
  rewrite run_collecting by apply name_calls_no_finalize.
  rewrite names_of_name_calls.
  split; [reflexivity |].
  intros fuel. apply finalize_within_hangs; [reflexivity |].
  cbn [fieldNames app]. now rewrite length_map.
Qed.

Lemma close_row_hangs (render : value -> string) (os : ostream)
    (console : string) (l : list (overload * string)) :
  2 ^ 32 <= Z.of_nat (List.length l) ->
  forall fuel,
    run_within render fuel (CSVWriter_new os console)
      (map name_call l ++ [Finalize])
    = None.
Proof.
  intros Hsize fuel. rewrite run_within_app.
  rewrite run_within_no_finalize by apply name_calls_no_finalize.
  cbn [run_within step_within].
  destruct (collecting_hangs render os console l Hsize) as [_ Hhang].
  now rewrite Hhang.
Qed.

(** ** Committing the header *)

(** C1, as stated, fails: the header loop counts the names with an
    [unsigned].  After [2^32] field-name insertions on a fresh writer the
    first close-row call never returns: no line terminator is written and
    the writer never reaches the emitting state. *)
Lemma header_commit_hangs :
  Z.of_nat (List.length many_names) = 2 ^ 32
  /\ forall fuel,
       run_within ostream_default fuel (CSVWriter_new empty_sink "")
         (map name_call many_names ++ [Finalize])
       = None.
Proof.
  assert (Hsize : Z.of_nat (List.length many_names) = 2 ^ 32).
  { unfold many_names. rewrite repeat_length. apply Z2Nat.id. lia. }
  split; [exact Hsize |].
  apply close_row_hangs. rewrite Hsize. lia.
Qed.

(** C1, amended: after [N] field-name insertions (through either
    overload) on a fresh writer, with [N] below [2^32], the writer is
    still collecting; the close-row call that follows returns and has
    added to the sink exactly the [N] names, each followed by a comma, in
    insertion order, then a line terminator; everything is flushed, no
    warning is printed, and the writer is in the emitting state. *)
Theorem header_commit (render : value -> string) (os : ostream)
    (console : string) (l : list (overload * string)) :
  Z.of_nat (List.length l) < 2 ^ 32 ->
  let collected := run render (CSVWriter_new os console) (map name_call l) in
  let w :=
    run render (CSVWriter_new os console) (map name_call l ++ [Finalize]) in
  run_within render (S (List.length l)) (CSVWriter_new os console)
    (map name_call l ++ [Finalize])
  = Some w
  /\ phase_of collected = Collecting
  /\ output collected = os
  /\ fieldNames w = map snd l
  /\ contents (output w) = contents os ++ header_line (map snd l)
  /\ pending (output w) = ""
  /\ stdout w = console
  /\ phase_of w = Emitting.
Proof.
  intros Hbound collected w. split.
  { subst w.
    pose proof (fresh_run_returns render os console
                  (map name_call l ++ [Finalize])) as Hret.
    rewrite names_of_app, names_of_name_calls in Hret.
    cbn [names_of] in Hret. rewrite app_nil_r, length_map in Hret.
    apply Hret, Hbound. }
  subst w. rewrite run_app. fold collected.
  assert (Hc : collected = mkCSVWriter os (map snd l) false 0 console).
  { subst collected. unfold CSVWriter_new.
    rewrite run_collecting by apply name_calls_no_finalize.
    now rewrite names_of_name_calls. }
  rewrite Hc. cbn [run fold_left step finalize finalized negb output
                   fieldNames stdout phase_of].
  repeat split.
  rewrite contents_flush, contents_endl, contents_put_header.
  unfold header_line. now rewrite append_assoc.
Qed.

Lemma header_commit_witness :
  let l := [(CStr, "Bandwidth"); (StdString, "Latency")] in
  run_within ostream_default 3 (CSVWriter_new empty_sink "")
    (map name_call l ++ [Finalize])
  = Some (run ostream_default (CSVWriter_new empty_sink "")
            (map name_call l ++ [Finalize]))
  /\ contents (output (run ostream_default (CSVWriter_new empty_sink "")
                         (map name_call l ++ [Finalize])))
     = "Bandwidth,Latency," ++ newline.
Proof.
  intros l.
  assert (Hbound : Z.of_nat (List.length l) < 2 ^ 32)
    by (vm_compute; reflexivity).
  destruct (header_commit ostream_default empty_sink "" l Hbound)
    as [Hret [_ [_ [_ [Hc _]]]]].
  split; [exact Hret | exact Hc].
Defined.

(** C10: close-row on a fresh writer without field names commits the
    header all the same: the sink receives a line terminator and nothing
    else, is flushed, and the writer is in the emitting state. *)
Theorem empty_header_commit (os : ostream) (console : string) :
  let w := finalize (CSVWriter_new os console) in
  contents (output w) = contents os ++ newline
  /\ device (output w) = contents os ++ newline
  /\ pending (output w) = ""
  /\ output (finalize (CSVWriter_new empty_sink console))
     = {| device := newline; pending := "" |}
  /\ fieldNames w = []
  /\ phase_of w = Emitting.
Proof.
  cbn [finalize CSVWriter_new finalized negb output fieldNames phase_of
       put_header fold_left].
  repeat split.
  - now rewrite contents_flush, contents_endl.
  - now rewrite device_flush, contents_endl.
Qed.

(** ** Insertions in the wrong phase *)

(** C6: while the header is not committed, inserting a value of any of
    the supported types leaves the writer, the sink and the standard
    output as they were: nothing is written and the counter does not
    move. *)
Theorem value_ignored_while_collecting (render : value -> string)
    (w : CSVWriter) (v : value) :
  finalized w = false -> insert_value render w v = w.
Proof. intros H. unfold insert_value. now rewrite H. Qed.

Lemma value_ignored_while_collecting_witness :
  finalized (CSVWriter_new empty_sink "") = false
  /\ insert_value ostream_default (CSVWriter_new empty_sink "")
       (of_double double_0_5)
     = CSVWriter_new empty_sink "".
Proof.
  split; [reflexivity |].
  apply (value_ignored_while_collecting ostream_default). reflexivity.
Defined.

(** C7: once the header is committed, inserting a field name through
    either overload returns the writer as it was: field names, flag,
    counter, sink and standard output are unchanged.  So no sequence of
    calls changes the field-name list from the first close-row call on. *)
Theorem name_ignored_while_emitting (render : value -> string)
    (w : CSVWriter) (name : string) (cs : list call) :
  finalized w = true ->
  insert_cstr w name = w
  /\ insert_string w name = w
  /\ fieldNames (run render w cs) = fieldNames w
  /\ forall w0 : CSVWriter,
       fieldNames (run render (finalize w0) cs) = fieldNames w0.
Proof.
  intros H. unfold insert_cstr, insert_string. rewrite H.
  repeat split.
  - apply run_emitting, H.
  - intros w0.
    destruct (run_emitting render cs (finalize w0) (finalized_finalize w0))
      as [_ Hn].
    now rewrite Hn, fieldNames_finalize.
Qed.

Lemma name_ignored_while_emitting_witness :
  let w := run ostream_default (CSVWriter_new empty_sink "")
             [InsertCStr "Bandwidth"; Finalize] in
  finalized w = true
  /\ insert_cstr w "Latency" = w
  /\ insert_string w "Latency" = w
  /\ fieldNames (run ostream_default w
                   [InsertString "Latency"; InsertValue (of_int 5); Finalize])
     = ["Bandwidth"].
Proof.
  intros w.
  destruct (name_ignored_while_emitting ostream_default w "Latency"
              [InsertString "Latency"; InsertValue (of_int 5); Finalize]
              eq_refl) as [H1 [H2 [H3 _]]].
  repeat split; assumption.
Defined.

(** ** The two phases *)

(** C8, as stated, fails: after [2^32] field-name insertions the writer
    is collecting and its first close-row call never returns, so that
    call does not move it to the emitting phase. *)
Lemma first_close_row_hangs :
  phase_of (run ostream_default (CSVWriter_new empty_sink "")
              (map name_call many_string_names))
  = Collecting
  /\ forall fuel,
       finalize_within fuel
         (run ostream_default (CSVWriter_new empty_sink "")
            (map name_call many_string_names))
       = None.
Proof.
  apply collecting_hangs.
  unfold many_string_names. rewrite repeat_length, Z2Nat.id; lia.
Qed.

(** C8, amended: a writer is in one of two phases; a fresh writer is
    collecting and stays so under name and value insertions; a close-row
    call on a collecting writer with fewer than [2^32] field names, or on
    an emitting writer, returns and leaves it emitting; and from the
    emitting phase every sequence of name insertions, value insertions
    and close-row calls returns and none leads back. *)
Theorem phases_one_way (render : value -> string) (os : ostream)
    (console : string) (w : CSVWriter) (c : call) (cs : list call) :
  (phase_of w = Collecting \/ phase_of w = Emitting)
  /\ phase_of (CSVWriter_new os console) = Collecting
  /\ (phase_of w = Collecting -> is_finalize c = false ->
      phase_of (step render w c) = Collecting)
  /\ (phase_of w = Emitting
      \/ Z.of_nat (List.length (fieldNames w)) < 2 ^ 32 ->
      finalize_within (S (List.length (fieldNames w))) w = Some (finalize w)
      /\ phase_of (finalize w) = Emitting)
  /\ (phase_of w = Emitting ->
      (forall fuel, run_within render fuel w cs = Some (run render w cs))
      /\ phase_of (run render w cs) = Emitting).
Proof.
  unfold phase_of. split; [destruct (finalized w); auto |].
  split; [reflexivity |].
  split; [| split].
  - destruct (finalized w) eqn:Hw; [discriminate |]. intros _ Hc.
    destruct c as [name|name|v|]; [| | | discriminate];
      cbn [step]; unfold insert_cstr, insert_string, insert_value;
      rewrite Hw; cbn; rewrite ?Hw; reflexivity.
  - intros Hret. rewrite finalized_finalize. split; [| reflexivity].
    apply finalize_within_returns.
    destruct (finalized w); [now left | right].
    destruct Hret as [Hph | Hsize]; [discriminate |].
    split; [exact Hsize | lia].
  - destruct (finalized w) eqn:Hw; [| discriminate]. intros _.
    destruct (run_emitting render cs w Hw) as [Hf _]. rewrite Hf.
    split; [| reflexivity].
    intros fuel. apply run_within_returns. now left.
Qed.

Lemma phases_one_way_witness :
  let fresh := CSVWriter_new empty_sink "" in
  phase_of fresh = Collecting
  /\ phase_of (step ostream_default fresh (InsertValue (of_int 5))) = Collecting
  /\ finalize_within 1 fresh = Some (finalize fresh)
  /\ phase_of (finalize fresh) = Emitting
  /\ phase_of (run ostream_default (finalize fresh)
                 [InsertCStr "Latency"; InsertValue (of_int 5); Finalize])
     = Emitting.
Proof.
  intros fresh.
  destruct (phases_one_way ostream_default empty_sink "" fresh
              (InsertValue (of_int 5)) [])
    as [_ [H1 [H2 [H3 _]]]].
  destruct (phases_one_way ostream_default empty_sink "" (finalize fresh)
              Finalize [InsertCStr "Latency"; InsertValue (of_int 5); Finalize])
    as [_ [_ [_ [_ H4]]]].
  assert (Hsize : Z.of_nat (List.length (fieldNames fresh)) < 2 ^ 32)
    by (vm_compute; reflexivity).
  destruct (H3 (or_intror Hsize)) as [Hret Hph].
  repeat apply conj.
  - exact H1.
  - apply H2; reflexivity.
  - exact Hret.
  - exact Hph.
  - apply H4; reflexivity.
Defined.

(** ** The per-row counter *)

Lemma wrap_succ (n : Z) : wrap (wrap n + 1) = wrap (n + 1).
Proof. unfold wrap. apply Z.add_mod_idemp_l. lia. Qed.

Lemma step_counter_inv (render : value -> string) (w : CSVWriter)
    (c : call) (n : Z) :
  counter_inv w n -> counter_inv (step render w c) (count_call n c).
Proof.
  unfold counter_inv. intros H.
  destruct c as [name|name|v|]; cbn [step count_call];
    unfold insert_cstr, insert_string, insert_value, finalize;
    destruct (finalized w) eqn:Hw; cbn; rewrite ?Hw; auto.
  rewrite H. apply wrap_succ.
Qed.

Lemma run_counter_inv (render : value -> string) (cs : list call) :
  forall w n, counter_inv w n ->
    counter_inv (run render w cs) (fold_left count_call cs n).
Proof.
  induction cs as [|c cs IH]; intros w n H; [exact H |].
  rewrite run_cons. cbn [fold_left]. apply IH, step_counter_inv, H.
Qed.

Lemma fresh_counter_inv (os : ostream) (console : string) :
  counter_inv (CSVWriter_new os console) 0.
Proof. reflexivity. Qed.

Lemma count_nonneg (cs : list call) :
  forall n, 0 <= n -> 0 <= fold_left count_call cs n.
Proof.
  induction cs as [|c cs IH]; intros n Hn; [exact Hn |].
  cbn [fold_left]. apply IH. destruct c; simpl; lia.
Qed.

Lemma count_repeat_values (v : value) (k : nat) :
  forall n, fold_left count_call (repeat (InsertValue v) k) n = n + Z.of_nat k.
Proof.
  induction k as [|k IH]; intros n; [simpl; lia |].
  cbn [repeat fold_left count_call]. rewrite IH. lia.
Qed.

Lemma values_since_close_row (v : value) (k : nat) :
  values_since_close (Finalize :: repeat (InsertValue v) k) = Z.of_nat k.
Proof.
  unfold values_since_close. cbn [fold_left count_call].
  now rewrite count_repeat_values.
Qed.

Lemma reachable_counter_inv (render : value -> string) (os : ostream)
    (console : string) (cs : list call) :
  counter_inv (run render (CSVWriter_new os console) cs)
    (values_since_close cs).
Proof. apply run_counter_inv, fresh_counter_inv. Qed.

(** A row of [k] values after the header. *)
Lemma row_of_values (render : value -> string) (os : ostream)
    (console : string) (v : value) (k : nat) :
  finalized (run render (CSVWriter_new os console)
               (Finalize :: repeat (InsertValue v) k)) = true
  /\ idx (run render (CSVWriter_new os console)
            (Finalize :: repeat (InsertValue v) k)) = wrap (Z.of_nat k).
Proof.
  assert (Hf : finalized (run render (CSVWriter_new os console)
                            (Finalize :: repeat (InsertValue v) k)) = true).
  { rewrite run_cons. apply run_emitting. reflexivity. }
  split; [exact Hf |].
  pose proof (reachable_counter_inv render os console
                (Finalize :: repeat (InsertValue v) k)) as Hinv.
  unfold counter_inv in Hinv. rewrite Hf in Hinv.
  now rewrite values_since_close_row in Hinv.
Qed.

(** C9, as stated, fails: the counter is an [unsigned].  After a
    close-row call and [2^32] value insertions the counter is back at
    zero, not at the number of values inserted since that call. *)
Lemma counter_wraps_around :
  finalized (run ostream_default (CSVWriter_new empty_sink "") overlong_row)
  = true
  /\ values_since_close overlong_row = 2 ^ 32
  /\ idx (run ostream_default (CSVWriter_new empty_sink "") overlong_row) = 0
  /\ idx (run ostream_default (CSVWriter_new empty_sink "") overlong_row)
     <> values_since_close overlong_row.
Proof.
  unfold overlong_row.
  destruct (row_of_values ostream_default empty_sink "" (of_int 0)
              (Z.to_nat (2 ^ 32))) as [Hf Hi].
  rewrite values_since_close_row, Hi, Z2Nat.id by lia.
  repeat apply conj.
  - exact Hf.
  - reflexivity.
  - reflexivity.
  - discriminate.
Qed.

(** C9, amended: the counter is zero in a fresh writer and zero after
    every close-row call; in the emitting phase a value insertion adds one
    to it modulo [2^32]; so after a close-row call it equals the number of
    values inserted since the last close-row call modulo [2^32], and that
    number itself as long as it is below [2^32]. *)
Theorem counter_tracks_row (render : value -> string) (os : ostream)
    (console : string) (cs : list call) (v : value) :
  let w := run render (CSVWriter_new os console) cs in
  idx (CSVWriter_new os console) = 0
  /\ idx (finalize w) = 0
  /\ (finalized w = true -> idx (insert_value render w v) = wrap (idx w + 1))
  /\ (finalized w = true -> idx w < 2 ^ 32 - 1 ->
      idx (insert_value render w v) = idx w + 1)
  /\ (finalized w = true -> idx w = wrap (values_since_close cs))
  /\ (finalized w = true -> values_since_close cs < 2 ^ 32 ->
      idx w = values_since_close cs).
Proof.
  intros w.
  pose proof (reachable_counter_inv render os console cs) as Hinv.
  fold w in Hinv.
  pose proof (count_nonneg cs 0 (Z.le_refl 0)) as Hnn.
  fold (values_since_close cs) in Hnn.
  unfold counter_inv in Hinv.
  split; [reflexivity |].
  split.
  { unfold finalize. destruct (finalized w); [reflexivity | exact Hinv]. }
  split; [| split; [| split]].
  - intros Hf. unfold insert_value. now rewrite Hf.
  - intros Hf Hlt. unfold insert_value. rewrite Hf. cbn [idx].
    rewrite Hf in Hinv. apply wrap_small.
    pose proof (wrap_range (values_since_close cs)). lia.
  - intros Hf. now rewrite Hf in Hinv.
  - intros Hf Hlt. rewrite Hf in Hinv. rewrite Hinv.
    apply wrap_small. lia.
Qed.

Lemma counter_tracks_row_witness :
  let cs := [InsertCStr "A"; Finalize; InsertValue (of_int 1);
             InsertValue (of_int 2)] in
  let w := run ostream_default (CSVWriter_new empty_sink "") cs in
  finalized w = true
  /\ idx w = 2
  /\ idx (insert_value ostream_default w (of_int 3)) = 3.
Proof.
  intros cs w.
  destruct (counter_tracks_row ostream_default empty_sink "" cs (of_int 3))
    as [_ [_ [_ [H4 [_ H6]]]]].
  split; [reflexivity |]. split.
  - apply H6; [reflexivity | vm_compute; reflexivity].
  - apply H4; [reflexivity | vm_compute; reflexivity].
Defined.

(** ** Closing a row *)

(** What close-row does once the header is committed: the row gets its
    line terminator and the sink is flushed, the counter restarts, and
    the warning is printed exactly when the counter is below the number
    of field names. *)
Lemma finalize_emitting (w : CSVWriter) :
  finalized w = true ->
  contents (output (finalize w)) = contents (output w) ++ newline
  /\ pending (output (finalize w)) = ""
  /\ fieldNames (finalize w) = fieldNames w
  /\ finalized (finalize w) = true
  /\ idx (finalize w) = 0
  /\ (idx w < Z.of_nat (List.length (fieldNames w)) ->
      stdout (finalize w)
      = stdout w ++ mismatch_warning (idx w)
                      (wrap (Z.of_nat (List.length (fieldNames w)))))
  /\ (Z.of_nat (List.length (fieldNames w)) <= idx w ->
      stdout (finalize w) = stdout w).
Proof.
  intros H. unfold finalize. rewrite H.
  cbn [negb output fieldNames finalized idx stdout].
  rewrite contents_endl.
  repeat split; intros Hlt;
    destruct (Z.ltb_spec (idx w) (Z.of_nat (List.length (fieldNames w))));
    try reflexivity; lia.
Qed.

Lemma mismatch_warning_nonempty (a b : Z) : mismatch_warning a b <> "".
Proof. unfold mismatch_warning. simpl. discriminate. Qed.

Lemma finalize_warns_iff (w : CSVWriter) :
  finalized w = true ->
  (stdout (finalize w) <> stdout w
   <-> idx w < Z.of_nat (List.length (fieldNames w))).
Proof.
  intros H.
  destruct (finalize_emitting w H) as [_ [_ [_ [_ [_ [Hlt Hge]]]]]].
  split.
  - intros Hne.
    destruct (Z.lt_ge_cases (idx w) (Z.of_nat (List.length (fieldNames w))))
      as [Hc|Hc]; [exact Hc | now rewrite Hge in Hne].
  - intros Hc. rewrite (Hlt Hc).
    apply append_neq, mismatch_warning_nonempty.
Qed.

(** C2 on the code: one field name, header committed, two values
    inserted.  The counter (2) differs from the number of field names
    (1), yet the close-row call prints no warning; it ends the row with a
    line terminator and restarts the counter.  (With no value inserted
    the same call does print the warning.) *)
Theorem surplus_values_not_reported (render : value -> string)
    (os : ostream) (console : string) :
  let w := run render (CSVWriter_new os console) surplus_row in
  phase_of w = Emitting
  /\ idx w = 2
  /\ Z.of_nat (List.length (fieldNames w)) = 1
  /\ stdout w = console
  /\ stdout (finalize w) = console
  /\ contents (output (finalize w)) = contents (output w) ++ newline
  /\ idx (finalize w) = 0
  /\ stdout (run render (CSVWriter_new os console)
               [InsertCStr "A"; Finalize; Finalize])
     = console ++ mismatch_warning 0 1.
Proof.
  intros w. subst w. cbn -[contents newline mismatch_warning].
  repeat split. apply contents_endl.
Qed.

Lemma surplus_warning_text :
  mismatch_warning 0 1
  = " Number of fields doesn't match values (fields=0, values=1), check each value has a field name before it"
    ++ newline.
Proof. reflexivity. Qed.

(** ** The documented usage *)

(** C3: names ["Bandwidth"] and ["Latency"], close; values 1.5 and 15,
    close; values 2.5 and 25, close.  On a sink that prints the four
    numbers as [1.5], [15], [2.5] and [25], the writer adds exactly three
    lines to the sink: the header line, then [1.5,15,], then [2.5,25,];
    all of it is flushed and no warning is printed. *)
Theorem documented_scenario (render : value -> string) (os : ostream)
    (console : string) :
  render (of_double double_1_5) = "1.5" ->
  render (of_int 15) = "15" ->
  render (of_double double_2_5) = "2.5" ->
  render (of_int 25) = "25" ->
  let w := run render (CSVWriter_new os console) scenario in
  contents (output w) = contents os ++ scenario_output
  /\ scenario_output
     = header_line ["Bandwidth"; "Latency"]
       ++ "1.5,15," ++ newline ++ "2.5,25," ++ newline
  /\ pending (output w) = ""
  /\ stdout w = console
  /\ idx w = 0
  /\ fieldNames w = ["Bandwidth"; "Latency"].
Proof.
  intros H1 H2 H3 H4 w. subst w.
  unfold scenario, run.
  cbn [fold_left step insert_cstr insert_string insert_value finalize
       CSVWriter_new finalized negb output fieldNames idx stdout app
       put_header].
  rewrite H1, H2, H3, H4.
  repeat split.
  repeat first [ rewrite contents_endl | rewrite contents_flush
               | rewrite contents_put ].
  rewrite ?append_assoc. reflexivity.
Qed.

Lemma documented_scenario_witness :
  output (run ostream_default (CSVWriter_new empty_sink "") scenario)
  = {| device := scenario_output; pending := "" |}
  /\ stdout (run ostream_default (CSVWriter_new empty_sink "") scenario) = "".
Proof.
  destruct (documented_scenario ostream_default empty_sink ""
              eq_refl eq_refl eq_refl eq_refl) as [Hc [_ [Hp [Hs _]]]].
  split; [| exact Hs].
  destruct (output (run ostream_default (CSVWriter_new empty_sink "") scenario))
    as [dev pend].
  cbn in Hc, Hp. subst pend. unfold contents in Hc. cbn [device pending] in Hc.
  rewrite append_nil_r in Hc. now subst dev.
Defined.

(** The usage example of the header's comment, on a default-formatted
    sink: the values of the first cycle and the names of the later cycles
    are dropped, and every line ends with a comma. *)
Lemma header_example_output :
  run ostream_default (CSVWriter_new empty_sink "") header_example
  = {| output := {| device := scenario_output; pending := "" |};
       fieldNames := ["Bandwidth"; "Latency"];
       finalized := true;
       idx := 0;
       stdout := "" |}.
Proof. vm_compute. reflexivity. Qed.

(* ================================================================== *)
(** * Further properties of the writer *)

Lemma count_no_finalize (cs : list call) :
  existsb is_finalize cs = false ->
  forall n, fold_left count_call cs n
            = n + Z.of_nat (List.length (values_of cs)).
Proof.
  induction cs as [|c cs IH]; intros Hno n; [simpl; lia |].
  simpl in Hno. apply orb_false_iff in Hno as [Hc Hcs].
  destruct c as [name|name|v|]; try discriminate;
    cbn [fold_left count_call values_of List.length];
    rewrite IH by assumption; lia.
Qed.

(** In the emitting phase, calls other than close-row add the inserted
    values to the sink, each followed by a comma, and nothing else
    changes but the counter. *)
Lemma run_values (render : value -> string) (cs : list call) :
  existsb is_finalize cs = false ->
  forall w, finalized w = true ->
    contents (output (run render w cs))
    = contents (output w) ++ cells (map render (values_of cs))
    /\ stdout (run render w cs) = stdout w.
Proof.
  induction cs as [|c cs IH]; intros Hno w Hw.
  - simpl. now rewrite append_nil_r.
  - simpl in Hno. apply orb_false_iff in Hno as [Hc Hcs].
    rewrite run_cons.
    destruct (step_emitting render w c Hw) as [Hf _].
    destruct (IH Hcs _ Hf) as [Hout Hstd]. rewrite Hout, Hstd.
    destruct c as [name|name|v|]; try discriminate;
      cbn [step values_of map cells];
      unfold insert_cstr, insert_string, insert_value; rewrite Hw;
      cbn [negb output stdout]; split; try reflexivity.
    rewrite !contents_put, !append_assoc. reflexivity.
Qed.

Lemma run_values_idx (render : value -> string) (cs : list call)
    (w : CSVWriter) (n : Z) :
  existsb is_finalize cs = false ->
  finalized w = true -> idx w = wrap n ->
  idx (run render w cs) = wrap (n + Z.of_nat (List.length (values_of cs))).
Proof.
  intros Hno Hw Hn.
  assert (Hinv : counter_inv w n) by (unfold counter_inv; now rewrite Hw).
  apply (run_counter_inv render cs) in Hinv.
  unfold counter_inv in Hinv.
  destruct (run_emitting render cs w Hw) as [Hf _].
  rewrite Hf in Hinv. now rewrite Hinv, count_no_finalize.
Qed.

Lemma values_of_value_calls (r : list value) :
  values_of (map InsertValue r) = r.
Proof. induction r as [|v r IH]; simpl; [reflexivity | now rewrite IH]. Qed.

Lemma value_calls_no_finalize (r : list value) :
  existsb is_finalize (map InsertValue r) = false.
Proof. induction r as [|v r IH]; simpl; auto. Qed.

(** The first close-row call, after any calls that are not close-row. *)
Lemma run_header (render : value -> string) (os : ostream)
    (console : string) (cs : list call) :
  existsb is_finalize cs = false ->
  run render (CSVWriter_new os console) (cs ++ [Finalize])
  = {| output := flush (endl (put_header (names_of cs) os));
       fieldNames := names_of cs;
       finalized := true;
       idx := 0;
       stdout := console |}.
Proof.
  intros Hno. rewrite run_app. unfold CSVWriter_new.
  rewrite run_collecting by exact Hno. reflexivity.
Qed.

(** X1: whatever is inserted before the first close-row call, values
    included and in any order, as long as fewer than [2^32] names are
    offered the close-row call returns and has written the header of the
    names offered so far, in order, and nothing of the values; it prints
    no warning and leaves the counter at zero. *)
Theorem header_ignores_values (render : value -> string) (os : ostream)
    (console : string) (cs : list call) :
  existsb is_finalize cs = false ->
  Z.of_nat (List.length (names_of cs)) < 2 ^ 32 ->
  let w := run render (CSVWriter_new os console) (cs ++ [Finalize]) in
  run_within render (S (List.length (names_of cs)))
    (CSVWriter_new os console) (cs ++ [Finalize])
  = Some w
  /\ fieldNames w = names_of cs
  /\ contents (output w) = contents os ++ header_line (names_of cs)
  /\ pending (output w) = ""
  /\ stdout w = console
  /\ idx w = 0
  /\ finalized w = true.
Proof.
  intros Hno Hbound w. split.
  { subst w.
    pose proof (fresh_run_returns render os console (cs ++ [Finalize]))
      as Hret.
    rewrite names_of_app in Hret. cbn [names_of] in Hret.
    rewrite app_nil_r in Hret. apply Hret, Hbound. }
  subst w. rewrite run_header by exact Hno.
  cbn [output fieldNames finalized idx stdout].
  repeat split.
  rewrite contents_flush, contents_endl, contents_put_header.
  unfold header_line. now rewrite append_assoc.
Qed.

Lemma header_ignores_values_witness :
  let cs := [InsertCStr "Bandwidth"; InsertValue (of_double double_0_5);
             InsertString "Latency"; InsertValue (of_int 5)] in
  let w := run ostream_default (CSVWriter_new empty_sink "")
             (cs ++ [Finalize]) in
  run_within ostream_default 3 (CSVWriter_new empty_sink "")
    (cs ++ [Finalize]) = Some w
  /\ fieldNames w = ["Bandwidth"; "Latency"]
  /\ contents (output w) = "Bandwidth,Latency," ++ newline
  /\ stdout w = "".
Proof.
  intros cs w.
  assert (Hbound : Z.of_nat (List.length (names_of cs)) < 2 ^ 32)
    by (vm_compute; reflexivity).
  destruct (header_ignores_values ostream_default empty_sink "" cs
              eq_refl Hbound)
    as [Hret [Hn [Hc [_ [Hs _]]]]].
  repeat apply conj; [exact Hret | exact Hn | exact Hc | exact Hs].
Defined.

(** Close-row after calls that are not close-row, header committed. *)
Lemma run_row (render : value -> string) (w : CSVWriter) (cs : list call) :
  finalized w = true ->
  existsb is_finalize cs = false ->
  contents (output (run render w (cs ++ [Finalize])))
  = contents (output w) ++ row_line render (values_of cs)
  /\ pending (output (run render w (cs ++ [Finalize]))) = ""
  /\ fieldNames (run render w (cs ++ [Finalize])) = fieldNames w
  /\ finalized (run render w (cs ++ [Finalize])) = true
  /\ idx (run render w (cs ++ [Finalize])) = 0.
Proof.
  intros Hw Hno. rewrite run_app.
  destruct (run_emitting render cs w Hw) as [Hf Hn].
  destruct (run_values render cs Hno w Hw) as [Hout _].
  cbn [run fold_left step].
  destruct (finalize_emitting _ Hf) as [Hc [Hp [Hn' [Hf' [Hi _]]]]].
  rewrite Hc, Hp, Hn', Hf', Hi, Hout, Hn.
  unfold row_line. now rewrite append_assoc.
Qed.

(** X2: once the header is committed, a close-row call that follows any
    insertions ends a line that holds exactly the values inserted since
    the row began, each followed by a comma, in order; names inserted in
    between leave no trace.  The line is flushed, the field names are
    unchanged and the counter restarts at zero. *)
Theorem row_commit (render : value -> string) (w : CSVWriter)
    (cs : list call) :
  finalized w = true ->
  existsb is_finalize cs = false ->
  let w' := run render w (cs ++ [Finalize]) in
  contents (output w')
  = contents (output w) ++ row_line render (values_of cs)
  /\ pending (output w') = ""
  /\ fieldNames w' = fieldNames w
  /\ finalized w' = true
  /\ idx w' = 0.
Proof. intros Hw Hno w'. now apply run_row. Qed.

Lemma row_commit_witness :
  let w := run ostream_default (CSVWriter_new empty_sink "")
             [InsertCStr "Bandwidth"; InsertCStr "Latency"; Finalize] in
  let w' := run ostream_default w
              [InsertCStr "Bandwidth"; InsertValue (of_double double_1_5);
               InsertCStr "Latency"; InsertValue (of_int 15); Finalize] in
  contents (output w')
  = ("Bandwidth,Latency," ++ newline) ++ "1.5,15," ++ newline
  /\ idx w' = 0.
Proof.
  intros w w'.
  destruct (row_commit ostream_default w
              [InsertCStr "Bandwidth"; InsertValue (of_double double_1_5);
               InsertCStr "Latency"; InsertValue (of_int 15)]
              eq_refl eq_refl) as [Hc [_ [_ [_ Hi]]]].
  split; [exact Hc | exact Hi].
Defined.

(** What close-row prints after a row begun with the counter at zero. *)
Lemma run_row_stdout (render : value -> string) (w : CSVWriter)
    (cs : list call) :
  finalized w = true ->
  idx w = 0 ->
  existsb is_finalize cs = false ->
  Z.of_nat (List.length (values_of cs)) < 2 ^ 32 ->
  let M := Z.of_nat (List.length (values_of cs)) in
  let N := Z.of_nat (List.length (fieldNames w)) in
  stdout (run render w (cs ++ [Finalize]))
  = if M <? N then stdout w ++ mismatch_warning M (wrap N) else stdout w.
Proof.
  intros Hw Hi Hno HM M N. rewrite run_app. cbn [run fold_left step].
  destruct (run_emitting render cs w Hw) as [Hf Hn].
  destruct (run_values render cs Hno w Hw) as [_ Hstd].
  assert (Hidx : idx (run render w cs) = M).
  { rewrite (run_values_idx render cs w 0 Hno Hw) by now rewrite Hi.
    apply wrap_small. subst M. lia. }
  destruct (finalize_emitting _ Hf) as [_ [_ [_ [_ [_ [Hlt Hge]]]]]].
  rewrite Hidx, Hn, Hstd in Hlt, Hge. fold N in Hlt, Hge.
  destruct (Z.ltb_spec M N) as [HMN|HMN]; [apply Hlt | apply Hge]; exact HMN.
Qed.

(** X3: a row of [M] values (fewer than [2^32]) begun with the counter at
    zero.  Close-row prints the warning exactly when [M] is below the
    number [N] of field names; the text then shows [M] after [fields=]
    and [N] after [values=].  A row with [N] values or more is closed
    silently. *)
Theorem row_warning (render : value -> string) (w : CSVWriter)
    (cs : list call) :
  finalized w = true ->
  idx w = 0 ->
  existsb is_finalize cs = false ->
  Z.of_nat (List.length (values_of cs)) < 2 ^ 32 ->
  let M := Z.of_nat (List.length (values_of cs)) in
  let N := Z.of_nat (List.length (fieldNames w)) in
  stdout (run render w (cs ++ [Finalize]))
  = if M <? N then stdout w ++ mismatch_warning M (wrap N) else stdout w.
Proof. apply run_row_stdout. Qed.

Lemma row_warning_witness :
  let w := run ostream_default (CSVWriter_new empty_sink "")
             [InsertCStr "Bandwidth"; InsertCStr "Latency"; Finalize] in
  stdout (run ostream_default w [InsertValue (of_int 15); Finalize])
  = mismatch_warning 1 2
  /\ stdout (run ostream_default w
               [InsertValue (of_int 15); InsertValue (of_int 25);
                InsertValue (of_int 35); Finalize])
     = "".
Proof.
  intros w. split.
  - apply (row_warning ostream_default w [InsertValue (of_int 15)]
             eq_refl eq_refl eq_refl eq_refl).
  - apply (row_warning ostream_default w
             [InsertValue (of_int 15); InsertValue (of_int 25);
              InsertValue (of_int 35)]
             eq_refl eq_refl eq_refl eq_refl).
Defined.

(** The rows of a session, from a writer whose header is committed and
    whose counter is at zero. *)
Lemma run_rows (render : value -> string) (rows : list (list value)) :
  forall w, finalized w = true ->
    let w' := run render w (flat_map row_calls rows) in
    contents (output w') = contents (output w) ++ rows_text render rows
    /\ fieldNames w' = fieldNames w
    /\ finalized w' = true
    /\ (rows <> [] -> pending (output w') = "" /\ idx w' = 0).
Proof.
  induction rows as [|r rows IH]; intros w Hw; cbv zeta.
  - simpl. rewrite append_nil_r.
    repeat apply conj; try reflexivity; try assumption.
    intros Hne. now contradiction Hne.
  - cbn [flat_map rows_text]. rewrite run_app.
    change (row_calls r) with (map InsertValue r ++ [Finalize])%list.
    destruct (run_row render w (map InsertValue r) Hw
                (value_calls_no_finalize r)) as [Hc [Hp [Hn [Hf Hi]]]].
    rewrite values_of_value_calls in Hc.
    destruct (IH _ Hf) as [Hc' [Hn' [Hf' Hlast]]].
    rewrite Hc', Hc, Hn', Hn, append_assoc.
    repeat apply conj; try reflexivity; try assumption.
    intros _. destruct rows as [|r' rows]; [now split |].
    apply Hlast. discriminate.
Qed.

(** X4: a whole session (fewer than [2^32] field names, close-row, then
    each row's values followed by close-row) returns from every call and
    leaves in the sink the header line and one line per row, in order,
    every cell followed by a comma, all of it flushed; rows may have any
    number of values. *)
Theorem session_output (render : value -> string) (os : ostream)
    (console : string) (names : list (overload * string))
    (rows : list (list value)) :
  Z.of_nat (List.length names) < 2 ^ 32 ->
  let w := run render (CSVWriter_new os console) (session names rows) in
  run_within render (S (List.length names)) (CSVWriter_new os console)
    (session names rows)
  = Some w
  /\ contents (output w)
     = contents os ++ header_line (map snd names) ++ rows_text render rows
  /\ pending (output w) = ""
  /\ fieldNames w = map snd names
  /\ finalized w = true.
Proof.
  intros Hbound w. split.
  { subst w.
    pose proof (fresh_run_returns render os console (session names rows))
      as Hret.
    rewrite names_of_session, length_map in Hret. apply Hret, Hbound. }
  subst w. unfold session. rewrite app_assoc, run_app.
  rewrite run_header by apply name_calls_no_finalize.
  rewrite names_of_name_calls.
  set (h := {| output := flush (endl (put_header (map snd names) os));
               fieldNames := map snd names; finalized := true; idx := 0;
               stdout := console |}).
  destruct (run_rows render rows h eq_refl) as [Hc' [Hn' [Hf' Hlast]]].
  rewrite Hc', Hn'. subst h. cbn [output fieldNames].
  rewrite contents_flush, contents_endl, contents_put_header.
  unfold header_line. rewrite !append_assoc.
  repeat apply conj; try reflexivity; try assumption.
  destruct rows as [|r rows]; [reflexivity |].
  apply Hlast. discriminate.
Qed.

Lemma session_output_witness :
  let names := [(CStr, "Bandwidth"); (CStr, "Latency")] in
  let rows := [[of_double double_1_5; of_int 15];
               [of_double double_2_5; of_int 25]] in
  run_within ostream_default 3 (CSVWriter_new empty_sink "")
    (session names rows)
  = Some (run ostream_default (CSVWriter_new empty_sink "")
            (session names rows))
  /\ contents (output (run ostream_default (CSVWriter_new empty_sink "")
                         (session names rows)))
     = scenario_output.
Proof.
  intros names rows.
  assert (Hbound : Z.of_nat (List.length names) < 2 ^ 32)
    by (vm_compute; reflexivity).
  destruct (session_output ostream_default empty_sink "" names rows Hbound)
    as [Hret [Hc _]].
  split; [exact Hret | exact Hc].
Defined.

Lemma run_rows_stdout (render : value -> string)
    (rows : list (list value)) :
  Forall (fun r => Z.of_nat (List.length r) < 2 ^ 32) rows ->
  forall w, finalized w = true -> idx w = 0 ->
    stdout (run render w (flat_map row_calls rows))
    = stdout w
      ++ warnings_text (Z.of_nat (List.length (fieldNames w))) rows.
Proof.
  induction 1 as [|r rows Hr Hrows IH]; intros w Hw Hi.
  - simpl. now rewrite append_nil_r.
  - cbn [flat_map warnings_text]. rewrite run_app.
    change (row_calls r) with (map InsertValue r ++ [Finalize])%list.
    destruct (run_row render w (map InsertValue r) Hw
                (value_calls_no_finalize r)) as [_ [_ [Hn [Hf Hi']]]].
    rewrite (IH _ Hf Hi'), Hn.
    rewrite (run_row_stdout render w (map InsertValue r) Hw Hi
               (value_calls_no_finalize r))
      by now rewrite values_of_value_calls.
    rewrite values_of_value_calls.
    destruct (Z.of_nat (List.length r)
              <? Z.of_nat (List.length (fieldNames w)));
      now rewrite ?append_assoc.
Qed.

Lemma warnings_text_none (N : Z) (rows : list (list value)) :
  Forall (fun r => N <= Z.of_nat (List.length r)) rows ->
  warnings_text N rows = "".
Proof.
  induction 1 as [|r rows Hr Hrows IH]; [reflexivity |].
  cbn [warnings_text]. rewrite IH.
  destruct (Z.ltb_spec (Z.of_nat (List.length r)) N); [lia | reflexivity].
Qed.

Lemma append_empty (s t : string) : s ++ t = "" -> s = "" /\ t = "".
Proof. destruct s; simpl; [auto | discriminate]. Qed.

Lemma warnings_text_some (N : Z) (rows : list (list value)) :
  Exists (fun r => Z.of_nat (List.length r) < N) rows ->
  warnings_text N rows <> "".
Proof.
  induction 1 as [r rows Hr | r rows Hrows IH]; cbn [warnings_text];
    intros Heq; apply append_empty in Heq as [Hhd Htl].
  - destruct (Z.ltb_spec (Z.of_nat (List.length r)) N); [| lia].
    now apply mismatch_warning_nonempty in Hhd.
  - now apply IH.
Qed.

(** X5: over a whole session with fewer than [2^32] field names and
    rows of fewer than [2^32] values, every call returns and the standard
    output gains one warning for each row with fewer values than there
    are field names, in order, and nothing else: it is untouched when no
    row is short, and it is not when some row is. *)
Theorem session_warnings (render : value -> string) (os : ostream)
    (console : string) (names : list (overload * string))
    (rows : list (list value)) :
  Z.of_nat (List.length names) < 2 ^ 32 ->
  Forall (fun r => Z.of_nat (List.length r) < 2 ^ 32) rows ->
  let N := Z.of_nat (List.length names) in
  let w := run render (CSVWriter_new os console) (session names rows) in
  run_within render (S (List.length names)) (CSVWriter_new os console)
    (session names rows)
  = Some w
  /\ stdout w = console ++ warnings_text N rows
  /\ (Forall (fun r => N <= Z.of_nat (List.length r)) rows ->
      stdout w = console)
  /\ (Exists (fun r => Z.of_nat (List.length r) < N) rows ->
      stdout w <> console).
Proof.
  intros Hbound Hrows N w. split.
  { subst w.
    pose proof (fresh_run_returns render os console (session names rows))
      as Hret.
    rewrite names_of_session, length_map in Hret. apply Hret, Hbound. }
  assert (Hstd : stdout w = console ++ warnings_text N rows).
  { subst w. unfold session. rewrite app_assoc, run_app.
    rewrite run_header by apply name_calls_no_finalize.
    rewrite names_of_name_calls.
    rewrite (run_rows_stdout render rows Hrows) by reflexivity.
    cbn [stdout fieldNames]. now rewrite length_map. }
  rewrite Hstd. split; [reflexivity | split].
  - intros Hall. now rewrite warnings_text_none, append_nil_r.
  - intros Hex. now apply append_neq, warnings_text_some.
Qed.

Lemma session_warnings_witness :
  let names := [(CStr, "Bandwidth"); (CStr, "Latency")] in
  stdout (run ostream_default (CSVWriter_new empty_sink "")
            (session names [[of_double double_1_5; of_int 15];
                            [of_double double_2_5; of_int 25]]))
  = ""
  /\ stdout (run ostream_default (CSVWriter_new empty_sink "")
               (session names [[of_double double_1_5; of_int 15];
                               [of_double double_2_5]]))
     = mismatch_warning 1 2.
Proof.
  intros names.
  assert (Hbound : Z.of_nat (List.length names) < 2 ^ 32)
    by (vm_compute; reflexivity).
  split.
  - refine (proj1 (proj2 (proj2 (session_warnings ostream_default empty_sink
                            "" names [[of_double double_1_5; of_int 15];
                                      [of_double double_2_5; of_int 25]]
                            Hbound _))) _);
      repeat constructor; vm_compute; congruence.
  - refine (proj1 (proj2 (session_warnings ostream_default empty_sink ""
                     names [[of_double double_1_5; of_int 15];
                            [of_double double_2_5]] Hbound _)));
      repeat constructor; vm_compute; congruence.
Defined.

(** ** What the writer does to the sink *)

Lemma same_control_refl (w : CSVWriter) : same_control w w.
Proof. now repeat split. Qed.

(** One call adds the same text to the sinks of two writers that differ
    at most in their sinks, and keeps them so. *)
Lemma step_sink (render : value -> string) (w1 w2 : CSVWriter) (c : call) :
  same_control w1 w2 ->
  exists t,
    contents (output (step render w1 c)) = contents (output w1) ++ t
    /\ contents (output (step render w2 c)) = contents (output w2) ++ t
    /\ same_control (step render w1 c) (step render w2 c).
Proof.
  intros (Hn & Hf & Hi & Hs).
  destruct c as [name|name|v|]; cbn [step];
    unfold insert_cstr, insert_string, insert_value, finalize, same_control;
    rewrite <- Hf; destruct (finalized w1) eqn:Hw;
    cbn [negb output fieldNames finalized idx stdout];
    rewrite <- ?Hn, <- ?Hi, <- ?Hs.
  1-4: exists ""; rewrite !append_nil_r; repeat split; congruence.
  - exists (render v ++ ",").
    rewrite !contents_put, !append_assoc. repeat split; congruence.
  - exists ""; rewrite !append_nil_r; repeat split; congruence.
  - exists newline. rewrite !contents_endl. repeat split; congruence.
  - exists (cells (fieldNames w1) ++ newline).
    rewrite !contents_flush, !contents_endl, !contents_put_header,
      !append_assoc.
    repeat split; congruence.
Qed.

Lemma run_sink (render : value -> string) (cs : list call) :
  forall w1 w2, same_control w1 w2 ->
    exists t,
      contents (output (run render w1 cs)) = contents (output w1) ++ t
      /\ contents (output (run render w2 cs)) = contents (output w2) ++ t
      /\ same_control (run render w1 cs) (run render w2 cs).
Proof.
  induction cs as [|c cs IH]; intros w1 w2 H.
  - exists "". simpl. rewrite !append_nil_r.
    split; [reflexivity | split; [reflexivity | exact H]].
  - rewrite !run_cons.
    destruct (step_sink render w1 w2 c H) as (t & H1 & H2 & Hc).
    destruct (IH _ _ Hc) as (t' & H1' & H2' & Hc').
    exists (t ++ t'). rewrite H1', H2', H1, H2, !append_assoc.
    split; [reflexivity | split; [reflexivity | exact Hc']].
Qed.

(** X6: the writer only appends to its sink and never looks at it.  For
    every sequence of calls there is one text that the calls add, after
    whatever the sink held before, whichever sink the writer is bound to;
    and field names, phase, counter and warnings come out the same. *)
Theorem sink_appended_blindly (render : value -> string)
    (os1 os2 : ostream) (names : list string) (committed : bool) (i : Z)
    (console : string) (cs : list call) :
  let w1 := run render (mkCSVWriter os1 names committed i console) cs in
  let w2 := run render (mkCSVWriter os2 names committed i console) cs in
  exists t,
    contents (output w1) = contents os1 ++ t
    /\ contents (output w2) = contents os2 ++ t
    /\ fieldNames w1 = fieldNames w2
    /\ finalized w1 = finalized w2
    /\ idx w1 = idx w2
    /\ stdout w1 = stdout w2.
Proof.
  intros w1 w2.
  destruct (run_sink render cs (mkCSVWriter os1 names committed i console)
              (mkCSVWriter os2 names committed i console))
    as (t & H1 & H2 & Hc); [now repeat split |].
  exists t. split; [exact H1 | split; [exact H2 | exact Hc]].
Qed.

(** The formatting of numbers reaches the sink and nothing else. *)
Lemma step_control (render1 render2 : value -> string) (w1 w2 : CSVWriter)
    (c : call) :
  same_control w1 w2 ->
  same_control (step render1 w1 c) (step render2 w2 c).
Proof.
  intros (Hn & Hf & Hi & Hs).
  destruct c as [name|name|v|]; cbn [step];
    unfold insert_cstr, insert_string, insert_value, finalize, same_control;
    rewrite <- Hf; destruct (finalized w1) eqn:Hw;
    cbn [negb output fieldNames finalized idx stdout];
    rewrite <- ?Hn, <- ?Hi, <- ?Hs; repeat split; congruence.
Qed.

(** X7: how the sink prints numbers has no influence on the field names,
    the phase, the counter or the warnings: two runs of the same calls
    with different renderings agree on all of them. *)
Theorem control_ignores_rendering (render1 render2 : value -> string)
    (cs : list call) (w : CSVWriter) :
  fieldNames (run render1 w cs) = fieldNames (run render2 w cs)
  /\ finalized (run render1 w cs) = finalized (run render2 w cs)
  /\ idx (run render1 w cs) = idx (run render2 w cs)
  /\ stdout (run render1 w cs) = stdout (run render2 w cs).
Proof.
  change (same_control (run render1 w cs) (run render2 w cs)).
  generalize (same_control_refl w). generalize w at 1 3. generalize w.
  induction cs as [|c cs IH]; intros w1 w2 H; [exact H |].
  rewrite !run_cons. apply IH, step_control, H.
Qed.

(** ** The phase against the history *)

Lemma run_with_finalize (render : value -> string) (cs : list call) :
  forall w, existsb is_finalize cs = true ->
    finalized (run render w cs) = true.
Proof.
  induction cs as [|c cs IH]; intros w Hex; [discriminate |].
  rewrite run_cons. simpl in Hex.
  destruct c as [name|name|v|]; cbn [is_finalize orb] in Hex;
    try (now apply IH).
  apply run_emitting. cbn [step]. apply finalized_finalize.
Qed.

(** X8: after any sequence of calls on a fresh writer that offers fewer
    than [2^32] names, every call has returned and the writer is in the
    emitting phase exactly when close-row has been called at least once.
    Until then nothing has reached the sink or the standard output, and
    the counter is zero; at all times the counter is within the range of
    an [unsigned]. *)
Theorem phase_follows_history (render : value -> string) (os : ostream)
    (console : string) (cs : list call) :
  Z.of_nat (List.length (names_of cs)) < 2 ^ 32 ->
  let w := run render (CSVWriter_new os console) cs in
  run_within render (S (List.length (names_of cs)))
    (CSVWriter_new os console) cs
  = Some w
  /\ finalized w = existsb is_finalize cs
  /\ (finalized w = false ->
      output w = os /\ stdout w = console /\ idx w = 0
      /\ fieldNames w = names_of cs)
  /\ 0 <= idx w < 2 ^ 32.
Proof.
  intros Hbound w.
  split; [now apply fresh_run_returns |].
  assert (Hph : finalized w = existsb is_finalize cs).
  { subst w. destruct (existsb is_finalize cs) eqn:Hex.
    - now apply run_with_finalize.
    - unfold CSVWriter_new. now rewrite run_collecting. }
  split; [exact Hph | split].
  - intros Hf. rewrite Hph in Hf. subst w. unfold CSVWriter_new.
    rewrite run_collecting by exact Hf. now repeat split.
  - pose proof (reachable_counter_inv render os console cs) as Hinv.
    fold w in Hinv. unfold counter_inv in Hinv.
    destruct (finalized w); rewrite Hinv; [apply wrap_range | lia].
Qed.

Lemma phase_follows_history_witness :
  let cs := [InsertCStr "Bandwidth"; InsertValue (of_double double_0_5)] in
  let w := run ostream_default (CSVWriter_new empty_sink "") cs in
  run_within ostream_default 2 (CSVWriter_new empty_sink "") cs = Some w
  /\ finalized w = false
  /\ output w = empty_sink /\ stdout w = "" /\ idx w = 0
  /\ fieldNames w = ["Bandwidth"].
Proof.
  intros cs w.
  assert (Hbound : Z.of_nat (List.length (names_of cs)) < 2 ^ 32)
    by (vm_compute; reflexivity).
  destruct (phase_follows_history ostream_default empty_sink "" cs Hbound)
    as [Hret [Hph [Hcol _]]].
  split; [exact Hret | split; [exact Hph | exact (Hcol Hph)]].
Defined.

(* ================================================================== *)
(** * Further properties of the indexed-name builder *)

Lemma substring_append (s t : string) (n : nat) :
  (String.length s <= n)%nat ->
  substring 0 n (s ++ t) = s ++ substring 0 (n - String.length s) t.
Proof.
  revert n; induction s as [|c s IH]; intros n Hn; simpl.
  - now rewrite Nat.sub_0_r.
  - destruct n as [|n]; simpl in *; [lia |]. rewrite IH by lia. reflexivity.
Qed.

Lemma substring_bracket (n : nat) (t : string) :
  (1 <= n)%nat ->
  substring 0 n ("[" ++ t) = "[" ++ substring 0 (n - 1) t.
Proof.
  intros Hn. destruct n as [|n]; [lia |]. simpl. now rewrite Nat.sub_0_r.
Qed.

Lemma utoa_exactly_two_digits (n : Z) :
  10 <= n < 100 -> String.length (utoa n) = 2%nat.
Proof.
  intros Hn.
  assert (Hall : forallb (fun k => (String.length (utoa (Z.of_nat k)) =? 2)%nat)
                   (seq 10 90) = true) by (vm_compute; reflexivity).
  rewrite forallb_forall in Hall.
  specialize (Hall (Z.to_nat n)).
  rewrite Z2Nat.id in Hall by lia.
  apply Nat.eqb_eq, Hall, in_seq. lia.
Qed.

Lemma length_subscript_exactly (i : Z) :
  10 <= i < 100 -> String.length (subscript i) = 4%nat.
Proof.
  intros Hi. unfold subscript. simpl. rewrite length_append. simpl.
  rewrite wrap_small by lia.
  rewrite (utoa_exactly_two_digits i Hi). reflexivity.
Qed.

(** A text of 63 characters and a closing bracket: the bracket is cut. *)
Lemma substring_drops_last (s : string) :
  String.length s = 63%nat -> substring 0 63 (s ++ "]") = s.
Proof.
  intros Hs. rewrite substring_append by lia. rewrite Hs. simpl.
  destruct (String.length s); apply append_nil_r.
Qed.

(** X9: whenever the builder returns, the result has at most 63
    characters and begins with the whole base name followed by the
    opening bracket of the first subscript: only subscripts are ever
    cut. *)
Theorem indexStr_keeps_base (baseName : string) (channel rank bank : Z) :
  ((String.length baseName + 4 <= 64)%nat ->
   exists t, indexStr1 baseName channel = Returned (baseName ++ "[" ++ t)
             /\ (String.length (baseName ++ "[" ++ t) <= 63)%nat)
  /\ ((String.length baseName + 4 * 2 <= 64)%nat ->
   exists t, indexStr2 baseName channel rank = Returned (baseName ++ "[" ++ t)
             /\ (String.length (baseName ++ "[" ++ t) <= 63)%nat)
  /\ ((String.length baseName + 4 * 3 <= 64)%nat ->
   exists t, indexStr3 baseName channel rank bank
             = Returned (baseName ++ "[" ++ t)
             /\ (String.length (baseName ++ "[" ++ t) <= 63)%nat).
Proof.
  destruct (indexStr_returns baseName channel rank bank) as [H1 [H2 H3]].
  repeat apply conj; intros Hcap;
    [ rewrite (H1 Hcap); unfold format1
    | rewrite (H2 Hcap); unfold format2
    | rewrite (H3 Hcap); unfold format3 ];
    unfold subscript at 1;
    rewrite substring_append by lia;
    rewrite ?(append_assoc "[");
    rewrite substring_bracket by lia;
    eexists; (split; [reflexivity |]);
    rewrite <- substring_bracket by lia;
    rewrite length_append, length_substring_0; lia.
Qed.

Lemma indexStr_keeps_base_witness :
  exists t, indexStr1 base59 100 = Returned (base59 ++ "[" ++ t)
            /\ (String.length (base59 ++ "[" ++ t) <= 63)%nat.
Proof.
  destruct (indexStr_keeps_base base59 100 0 0) as [H1 _].
  apply H1. simpl. lia.
Defined.

(** X10: within the capacity check, the builder returns the full name
    [base[i]], [base[i][j]] or [base[i][j][k]] if and only if that name
    has at most 63 characters. *)
Theorem indexStr_exact_iff (baseName : string) (channel rank bank : Z) :
  ((String.length baseName + 4 <= 64)%nat ->
   (indexStr1 baseName channel = Returned (format1 baseName channel)
    <-> (String.length (format1 baseName channel) <= 63)%nat))
  /\ ((String.length baseName + 4 * 2 <= 64)%nat ->
   (indexStr2 baseName channel rank
    = Returned (format2 baseName channel rank)
    <-> (String.length (format2 baseName channel rank) <= 63)%nat))
  /\ ((String.length baseName + 4 * 3 <= 64)%nat ->
   (indexStr3 baseName channel rank bank
    = Returned (format3 baseName channel rank bank)
    <-> (String.length (format3 baseName channel rank bank) <= 63)%nat)).
Proof.
  destruct (indexStr_returns baseName channel rank bank) as [H1 [H2 H3]].
  repeat apply conj; intros Hcap;
    [ rewrite (H1 Hcap) | rewrite (H2 Hcap) | rewrite (H3 Hcap) ];
    (split;
     [ intros Heq; injection Heq as Heq;
       apply (f_equal String.length) in Heq;
       rewrite length_substring_0 in Heq; lia
     | intros Hlen; now rewrite substring_all ]).
Qed.

Lemma indexStr_exact_iff_witness :
  indexStr1 "Bandwidth" 3 = Returned (format1 "Bandwidth" 3)
  /\ ~ (String.length (format1 base59 100) <= 63)%nat.
Proof.
  destruct (indexStr_exact_iff "Bandwidth" 3 0 0) as [H1 _].
  destruct (indexStr_exact_iff base59 100 0 0) as [H2 _].
  split.
  - apply H1; simpl; lia.
  - intros Hlen. apply H2 in Hlen; [| simpl; lia].
    vm_compute in Hlen. discriminate Hlen.
Defined.

(** X11: at the edge of the capacity check (base name's length plus four
    per index equal to 64) with two-digit indices, the formatted name has
    64 characters and the builder returns it without its closing
    bracket. *)
Theorem indexStr_edge_drops_bracket (baseName : string)
    (channel rank bank : Z) :
  10 <= channel < 100 -> 10 <= rank < 100 -> 10 <= bank < 100 ->
  ((String.length baseName + 4 = 64)%nat ->
   indexStr1 baseName channel = Returned (baseName ++ "[" ++ utoa channel))
  /\ ((String.length baseName + 4 * 2 = 64)%nat ->
   indexStr2 baseName channel rank
   = Returned (baseName ++ "[" ++ utoa channel ++ "]"
                        ++ "[" ++ utoa rank))
  /\ ((String.length baseName + 4 * 3 = 64)%nat ->
   indexStr3 baseName channel rank bank
   = Returned (baseName ++ "[" ++ utoa channel ++ "]"
                        ++ "[" ++ utoa rank ++ "]"
                        ++ "[" ++ utoa bank)).
Proof.
  intros Hc Hr Hb.
  destruct (indexStr_returns baseName channel rank bank) as [H1 [H2 H3]].
  pose proof (utoa_exactly_two_digits channel Hc) as Lc.
  pose proof (utoa_exactly_two_digits rank Hr) as Lr.
  pose proof (utoa_exactly_two_digits bank Hb) as Lb.
  repeat apply conj; intros Hcap.
  - rewrite H1 by lia. f_equal. unfold format1, subscript.
    rewrite wrap_small by lia.
    replace (baseName ++ "[" ++ utoa channel ++ "]")
      with ((baseName ++ "[" ++ utoa channel) ++ "]")
      by (repeat (progress (simpl; rewrite ?append_assoc)); reflexivity).
    apply substring_drops_last.
    rewrite length_append. simpl. lia.
  - rewrite H2 by lia. f_equal. unfold format2, subscript.
    rewrite !wrap_small by lia.
    replace (baseName ++ ("[" ++ utoa channel ++ "]") ++ "[" ++ utoa rank ++ "]")
      with ((baseName ++ "[" ++ utoa channel ++ "]" ++ "[" ++ utoa rank) ++ "]")
      by (repeat (progress (simpl; rewrite ?append_assoc)); reflexivity).
    apply substring_drops_last.
    rewrite length_append. simpl. rewrite length_append. simpl. lia.
  - rewrite H3 by lia. f_equal. unfold format3, subscript.
    rewrite !wrap_small by lia.
    replace (baseName ++ ("[" ++ utoa channel ++ "]")
                      ++ ("[" ++ utoa rank ++ "]") ++ "[" ++ utoa bank ++ "]")
      with ((baseName ++ "[" ++ utoa channel ++ "]" ++ "[" ++ utoa rank ++ "]"
                      ++ "[" ++ utoa bank) ++ "]")
      by (repeat (progress (simpl; rewrite ?append_assoc)); reflexivity).
    apply substring_drops_last.
    rewrite length_append. simpl. rewrite length_append. simpl.
    rewrite length_append. simpl. lia.
Qed.

Lemma indexStr_edge_drops_bracket_witness :
  indexStr1 (base59 ++ "s") 10 = Returned (base59 ++ "s" ++ "[10").
Proof.
  destruct (indexStr_edge_drops_bracket (base59 ++ "s") 10 10 10)
    as [H1 _]; try lia.
  rewrite H1 by (simpl; lia).
  simpl. reflexivity.
Defined.

(* ================================================================== *)
(** * Nothing is taken back *)

Lemma device_put_header (names : list string) (os : ostream) :
  device (put_header names os) = device os.
Proof.
  unfold put_header. revert os.
  induction names as [|name names IH]; intros os; simpl;
    [reflexivity | now rewrite IH].
Qed.

Lemma step_grows (render : value -> string) (w : CSVWriter) (c : call) :
  (exists d, device (output (step render w c)) = device (output w) ++ d)
  /\ (exists more,
        fieldNames (step render w c) = (fieldNames w ++ more)%list)
  /\ (exists t, stdout (step render w c) = stdout w ++ t).
Proof.
  destruct c as [name|name|v|]; cbn [step];
    unfold insert_cstr, insert_string, insert_value, finalize;
    destruct (finalized w);
    cbn [negb output fieldNames finalized idx stdout];
    repeat apply conj;
    try (exists ""; now rewrite append_nil_r);
    try (exists []; now rewrite app_nil_r);
    try (eexists; reflexivity).
  - destruct (idx w <? Z.of_nat (List.length (fieldNames w)));
      [eexists; reflexivity | exists ""; now rewrite append_nil_r].
  - rewrite device_flush, contents_endl. unfold contents.
    rewrite device_put_header, append_assoc. eexists; reflexivity.
Qed.

(** X12: no call takes anything back.  Over any sequence of calls, from
    any state, what the device has received, the list of field names and
    the standard output only ever grow at the end. *)
Theorem nothing_retracted (render : value -> string) (cs : list call)
    (w : CSVWriter) :
  (exists d, device (output (run render w cs)) = device (output w) ++ d)
  /\ (exists more,
        fieldNames (run render w cs) = (fieldNames w ++ more)%list)
  /\ (exists t, stdout (run render w cs) = stdout w ++ t).
Proof.
  revert w. induction cs as [|c cs IH]; intros w.
  - simpl. repeat apply conj;
      [exists "" | exists [] | exists ""];
      now rewrite ?append_nil_r, ?app_nil_r.
  - rewrite run_cons.
    destruct (step_grows render w c) as [[d Hd] [[m Hm] [t Ht]]].
    destruct (IH (step render w c)) as [[d' Hd'] [[m' Hm'] [t' Ht']]].
    repeat apply conj.
    + exists (d ++ d'). now rewrite Hd', Hd, append_assoc.
    + exists (m ++ m')%list. now rewrite Hm', Hm, <- app_assoc.
    + exists (t ++ t'). now rewrite Ht', Ht, append_assoc.
Qed.
